(** * deaddev::bitmask -- a shallow embedding of [deaddev/bitmask.hpp]

    The header wraps an enumeration [T] in a value type [bitmask<T>]
    holding one field [mask_] of the enumeration's underlying integer
    type.  Integers are modelled by their C++ values in [Z]; the bitwise
    operators of [Z] act on the infinite two's-complement expansion,
    which is what the C++ operators compute on the promoted operands,
    and every conversion back to the underlying type is written out as
    [wrap]. *)

From Stdlib Require Import ZArith Bool List Lia.
Import ListNotations.
Local Open Scope Z_scope.

(** ** Integer types *)

Definition CHAR_BIT : Z := 8.

(** An integer type is known by its [sizeof] and its signedness. *)
Record int_type : Type := { sizeof : Z; is_signed : bool }.

Definition bits (I : int_type) : Z := sizeof I * CHAR_BIT.

Definition uint8_t : int_type := {| sizeof := 1; is_signed := false |}.
Definition uint16_t : int_type := {| sizeof := 2; is_signed := false |}.
Definition uint32_t : int_type := {| sizeof := 4; is_signed := false |}.
Definition int16_t : int_type := {| sizeof := 2; is_signed := true |}.
Definition int32_t : int_type := {| sizeof := 4; is_signed := true |}.

(** The values an integer type can hold. *)
Definition in_range (I : int_type) (z : Z) : bool :=
  if is_signed I
  then (- 2 ^ (bits I - 1) <=? z) && (z <? 2 ^ (bits I - 1))
  else (0 <=? z) && (z <? 2 ^ bits I).

(** Conversion of an integer value to the type [I]: the unique value of
    the type congruent to [z] modulo [2 ^ bits I]. *)
Definition wrap (I : int_type) (z : Z) : Z :=
  let u := z mod 2 ^ bits I in
  if is_signed I && (2 ^ (bits I - 1) <=? u) then u - 2 ^ bits I else u.

(** The bit of the converted value at position [i], read off the
    original value: a signed type repeats its sign bit, an unsigned one
    has nothing above its width. *)
Definition wrap_bit (I : int_type) (z i : Z) : bool :=
  if is_signed I then Z.testbit z (Z.min i (bits I - 1))
  else (i <? bits I) && Z.testbit z i.

(** ** Constant expressions on [int]

    [calculate_all_flags<T>()] computes in the type [int] of the
    platform, inside a constant expression: an operation whose behaviour
    is undefined there yields no value at all ([None]), the program being
    ill-formed. *)

Definition bind {A B : Type} (x : option A) (f : A -> option B) : option B :=
  match x with
  | Some a => f a
  | None => None
  end.

Notation "x <- c ;; k" := (bind c (fun x => k))
  (at level 61, c at next level, right associativity).

Section IntArithmetic.

(** The type [int]. *)
Variable INT : int_type.

(** [a << n]: undefined when [n] is negative or not less than the width
    of the (promoted) left operand; otherwise the value congruent to
    [a * 2^n].  For the literal [1] every language version the header
    supports agrees on this. *)
Definition int_shl (a n : Z) : option Z :=
  if (0 <=? n) && (n <? bits INT)
  then Some (wrap INT (a * 2 ^ n))
  else None.

(** [a - b]: signed overflow is undefined. *)
Definition int_sub (a b : Z) : option Z :=
  if in_range INT (a - b) then Some (a - b) else None.

End IntArithmetic.

(** ** Enumerations and their capability descriptor *)

(** What the header needs to know of an enumeration [T]. *)
Record enum_type : Type := {
  underlying_type : int_type;
  is_scoped_enum_v : bool
}.

(** [bitmask_traits<T, AllFlags>] *)
Record bitmask_traits : Type := {
  enable : bool;
  traits_all_flags : Z
}.

(** [static_cast<I>(value)] *)
Definition static_cast (I : int_type) (value : Z) : Z := wrap I value.

Section Registration.

Variable INT : int_type.
(** The value of [__cplusplus]. *)
Variable cplusplus : Z.
Variable T : enum_type.

Local Abbreviation U := (underlying_type T).

(** [result |= static_cast<underlying_type_t<T>>(value)] *)
Definition combine_flags (result value : Z) : Z :=
  wrap U (Z.lor result (static_cast U value)).

(** The sentinel overload and the recursive overload of
    [calculate_all_flags_cpp_before_17]: the first value and the rest. *)
Fixpoint calculate_all_flags_cpp_before_17 (arg : Z) (args : list Z) : Z :=
  match args with
  | [] => static_cast U arg
  | next :: rest =>
      static_cast U
        (Z.lor (static_cast U arg)
               (static_cast U (calculate_all_flags_cpp_before_17 next rest)))
  end.

(** The fold over the comma operator runs left to right from
    [result{0}]. *)
Definition calculate_all_flags_cpp_17 (args : list Z) : Z :=
  static_cast U (fold_left combine_flags args 0).

(** [calculate_all_flags<T>(args...)], called with one value at least. *)
Definition calculate_all_flags_args (arg : Z) (args : list Z) : Z :=
  if cplusplus <? 201703
  then calculate_all_flags_cpp_before_17 arg args
  else calculate_all_flags_cpp_17 (arg :: args).

(** [calculate_all_flags<T>()]:
    [static_cast<T>((1 << (sizeof(T) * CHAR_BIT)) - 1)]. *)
Definition calculate_all_flags_noargs : option Z :=
  shifted <- int_shl INT 1 (sizeof U * CHAR_BIT) ;;
  ones <- int_sub INT shifted 1 ;;
  Some (static_cast U ones).

(** Overload resolution: the overload without a parameter pack is the
    more specialised one and takes the call without arguments. *)
Definition calculate_all_flags (args : list Z) : option Z :=
  match args with
  | [] => calculate_all_flags_noargs
  | arg :: rest => Some (calculate_all_flags_args arg rest)
  end.

(** [DEADDEV_ENABLE_BITMASK(T, ...)]: the descriptor found by
    argument-dependent lookup. *)
Definition DEADDEV_ENABLE_BITMASK (args : list Z) : option bitmask_traits :=
  all <- calculate_all_flags args ;;
  Some {| enable := true; traits_all_flags := all |}.

(** [DEADDEV_ENABLE_BITMASK_EXTERNAL(T, ...)]: the same descriptor as an
    explicit specialisation. *)
Definition DEADDEV_ENABLE_BITMASK_EXTERNAL (args : list Z)
  : option bitmask_traits :=
  all <- calculate_all_flags args ;;
  Some {| enable := true; traits_all_flags := all |}.

End Registration.

(** ** The class [bitmask<T>] *)

Record bitmask : Type := { mask_ : Z }.

Section Bitmask.

Variable T : enum_type.
Variable traits : bitmask_traits.

Local Abbreviation U := (underlying_type T).

(** [bitmask_all_flags_v<T>] *)
Definition bitmask_all_flags_v : Z := traits_all_flags traits.

(** A mask whose field holds a value of [mask_type]. *)
Definition wf (m : bitmask) : Prop := in_range U (mask_ m) = true.

(** [bitmask(enum_type value)] *)
Definition from_enum (value : Z) : bitmask :=
  {| mask_ := static_cast U value |}.

(** [explicit bitmask(mask_type value)] *)
Definition from_mask (value : Z) : bitmask := {| mask_ := value |}.

(** [explicit operator enum_type()] and [explicit operator mask_type()] *)
Definition to_enum (m : bitmask) : Z := static_cast U (mask_ m).
Definition to_mask (m : bitmask) : Z := mask_ m.

Definition all_flags : bitmask := from_enum bitmask_all_flags_v.

(** *** Comparisons, with [mask_type] and with [bitmask] *)

Definition eq_int (m : bitmask) (mask : Z) : bool := mask_ m =? mask.
Definition ne_int (m : bitmask) (mask : Z) : bool := negb (mask_ m =? mask).
Definition le_int (m : bitmask) (mask : Z) : bool := mask_ m <=? mask.
Definition ge_int (m : bitmask) (mask : Z) : bool := mask_ m >=? mask.
Definition lt_int (m : bitmask) (mask : Z) : bool := mask_ m <? mask.
Definition gt_int (m : bitmask) (mask : Z) : bool := mask_ m >? mask.

Definition eq_mask (m other : bitmask) : bool := mask_ m =? mask_ other.
Definition ne_mask (m other : bitmask) : bool := negb (mask_ m =? mask_ other).
Definition le_mask (m other : bitmask) : bool := mask_ m <=? mask_ other.
Definition ge_mask (m other : bitmask) : bool := mask_ m >=? mask_ other.
Definition lt_mask (m other : bitmask) : bool := mask_ m <? mask_ other.
Definition gt_mask (m other : bitmask) : bool := mask_ m >? mask_ other.

(** *** Bitwise operators

    The operands are promoted, the result is an [int] (or wider) and is
    converted to [mask_type] where it meets the constructor or the
    field. *)

Definition operator_not (m : bitmask) : bitmask :=
  from_mask (static_cast U (Z.lxor (mask_ m) (mask_ all_flags))).

Definition operator_xor (m other : bitmask) : bitmask :=
  from_mask (wrap U (Z.lxor (mask_ m) (mask_ other))).
Definition operator_or (m other : bitmask) : bitmask :=
  from_mask (wrap U (Z.lor (mask_ m) (mask_ other))).
Definition operator_and (m other : bitmask) : bitmask :=
  from_mask (wrap U (Z.land (mask_ m) (mask_ other))).

(** The assignment forms return [*this], the object after the update. *)
Definition operator_xor_assign (m other : bitmask) : bitmask :=
  {| mask_ := wrap U (Z.lxor (mask_ m) (mask_ other)) |}.
Definition operator_or_assign (m other : bitmask) : bitmask :=
  {| mask_ := wrap U (Z.lor (mask_ m) (mask_ other)) |}.
Definition operator_and_assign (m other : bitmask) : bitmask :=
  {| mask_ := wrap U (Z.land (mask_ m) (mask_ other)) |}.

Definition operator_xor_enum (m : bitmask) (other : Z) : bitmask :=
  from_mask (wrap U (Z.lxor (mask_ m) (static_cast U other))).
Definition operator_or_enum (m : bitmask) (other : Z) : bitmask :=
  from_mask (wrap U (Z.lor (mask_ m) (static_cast U other))).
Definition operator_and_enum (m : bitmask) (other : Z) : bitmask :=
  from_mask (wrap U (Z.land (mask_ m) (static_cast U other))).

Definition operator_xor_assign_enum (m : bitmask) (other : Z) : bitmask :=
  {| mask_ := wrap U (Z.lxor (mask_ m) (static_cast U other)) |}.
Definition operator_or_assign_enum (m : bitmask) (other : Z) : bitmask :=
  {| mask_ := wrap U (Z.lor (mask_ m) (static_cast U other)) |}.
Definition operator_and_assign_enum (m : bitmask) (other : Z) : bitmask :=
  {| mask_ := wrap U (Z.land (mask_ m) (static_cast U other)) |}.

(** *** Queries and updates *)

(** The comparison is made on the promoted operands. *)
Definition is_set_enum (m : bitmask) (flag : Z) : bool :=
  Z.land (mask_ m) (static_cast U flag) =? static_cast U flag.

Definition is_set_mask (m other : bitmask) : bool :=
  Z.land (mask_ m) (mask_ other) =? mask_ other.

(** [set(enum_type)] and [remove(enum_type)].  The overloads taking a
    [bitmask] pass [other.mask_], a [mask_type], to [|=] and [^=], which
    accept a [bitmask] or an [enum_type] and have no implicit conversion
    from [mask_type]: they cannot be instantiated. *)
Definition set (m : bitmask) (flag : Z) : bitmask :=
  operator_or_assign_enum m flag.

Definition remove (m : bitmask) (flag : Z) : bitmask :=
  operator_xor_assign_enum m flag.

(** ** Free operators *)

(** A member comparison called with an [enum_type] argument: an
    unscoped enumeration is promoted to its underlying type and meets
    the [mask_type] overload, a scoped one can only be converted by the
    constructor and meets the [bitmask] overload.  The call inside a
    free operator resolves to a member in C++14 and C++17, and in C++20
    too, where the free [operator!=] of the same signature keeps the free
    [operator==] out of the reversed candidates. *)
Definition with_enum_arg {A : Type}
    (f_int : bitmask -> Z -> A) (f_mask : bitmask -> bitmask -> A)
    (m : bitmask) (value : Z) : A :=
  if is_scoped_enum_v T
  then f_mask m (from_enum value)
  else f_int m (static_cast U value).

Definition free_eq_enum (left : Z) (right : bitmask) : bool :=
  with_enum_arg eq_int eq_mask right left.
Definition free_ne_enum (left : Z) (right : bitmask) : bool :=
  with_enum_arg ne_int ne_mask right left.
Definition free_ge_enum (left : Z) (right : bitmask) : bool :=
  with_enum_arg le_int le_mask right left.
Definition free_le_enum (left : Z) (right : bitmask) : bool :=
  with_enum_arg ge_int ge_mask right left.
Definition free_lt_enum (left : Z) (right : bitmask) : bool :=
  with_enum_arg gt_int gt_mask right left.
Definition free_gt_enum (left : Z) (right : bitmask) : bool :=
  with_enum_arg lt_int lt_mask right left.

Definition free_eq_int (left : Z) (right : bitmask) : bool := eq_int right left.
Definition free_ne_int (left : Z) (right : bitmask) : bool := ne_int right left.
Definition free_ge_int (left : Z) (right : bitmask) : bool := le_int right left.
Definition free_le_int (left : Z) (right : bitmask) : bool := ge_int right left.
Definition free_lt_int (left : Z) (right : bitmask) : bool := gt_int right left.
Definition free_gt_int (left : Z) (right : bitmask) : bool := lt_int right left.

Definition free_not (flag : Z) : bitmask := operator_not (from_enum flag).
Definition free_xor (left right : Z) : bitmask :=
  operator_xor_enum (from_enum left) right.
Definition free_or (left right : Z) : bitmask :=
  operator_or_enum (from_enum left) right.
Definition free_and (left right : Z) : bitmask :=
  operator_and_enum (from_enum left) right.

End Bitmask.

(** ** The enumerations of the test suite *)

Definition simple_bitmask_flag_bits : enum_type :=
  {| underlying_type := uint16_t; is_scoped_enum_v := false |}.
Definition scoped_bitmask_flag_bits : enum_type :=
  {| underlying_type := uint16_t; is_scoped_enum_v := true |}.

Definition OPTION_0_BIT : Z := 0x01.
Definition OPTION_1_BIT : Z := 0x04.
Definition OPTION_2_BIT : Z := 0x08.

(** The descriptor [DEADDEV_ENABLE_BITMASK] registers for both. *)
Definition test_traits : bitmask_traits :=
  {| enable := true; traits_all_flags := 0x0d |}.

(** ** Construction by default and eligibility *)

(** [constexpr bitmask() noexcept = default], the field being declared
    [mask_type mask_{}]. *)
Definition default_bitmask : bitmask := {| mask_ := 0 |}.

(** [empty_bitmask_traits], what the lookup finds for an enumeration
    that was not registered. *)
Definition empty_bitmask_traits : bitmask_traits :=
  {| enable := false; traits_all_flags := 0xFFFFFFFFFFFFFFFF |}.


(** ** The example program *)

(** [enum class some_bitmask_flag_bits], without a fixed underlying type:
    a scoped enumeration over [int]. *)
Definition some_bitmask_flag_bits : enum_type :=
  {| underlying_type := int32_t; is_scoped_enum_v := true |}.

Definition flag_0_bit : Z := 0x01.
Definition flag_1_bit : Z := 0x02.
Definition flag_2_bit : Z := 0x04.
Definition flag_3_bit : Z := 0x08.
Definition flag_4_bit : Z := 0x10.
Definition flag_5_bit : Z := 0x20.
Definition flag_6_bit : Z := 0x40.
Definition flag_7_bit : Z := 0x80.

(** [assert(condition)]: the program goes on only when it holds. *)
Definition assert (condition : bool) : option unit :=
  if condition then Some tt else None.

(** [main] of the example, for the descriptor its registration gives:
    the value returned, or [None] when an assertion fails. *)
Definition example_main (traits : bitmask_traits) : option Z :=
  let E := some_bitmask_flag_bits in
  let flags := default_bitmask in
  let flags := operator_or_assign_enum E flags flag_1_bit in
  let flags := operator_not E traits flags in
  let flags :=
    operator_xor E flags
      (operator_or_enum E (free_or E flag_5_bit flag_4_bit) flag_1_bit) in
  let flags := remove E (set E flags flag_5_bit) flag_2_bit in
  _ <- assert (is_set_enum E flags flag_1_bit) ;;
  _ <- assert (is_set_mask flags (free_or E flag_1_bit flag_3_bit)) ;;
  _ <- assert (negb (is_set_enum E flags flag_2_bit)) ;;
  _ <- assert (negb (is_set_mask flags (free_or E flag_2_bit flag_4_bit))) ;;
  _ <- assert (negb (is_set_mask flags (free_or E flag_0_bit flag_2_bit))) ;;
  Some 0.

(** The union of a list of flag values, the value a registration with a
    list is expected to record. *)
Definition union_of (args : list Z) : Z := fold_right Z.lor 0 args.

(** * Properties *)

(** ** Conversions to an integer type *)

Section IntegerTypes.

Variable I : int_type.
Hypothesis sizeof_pos : 0 < sizeof I.

Lemma bits_pos : 0 < bits I.
Proof. unfold bits, CHAR_BIT. lia. Qed.

Lemma pow2_bits_split : 2 ^ bits I = 2 * 2 ^ (bits I - 1).
Proof.
  pose proof bits_pos as Hb.
  rewrite <- Z.pow_succ_r by lia. f_equal. lia.
Qed.

Lemma pow2_half_pos : 0 < 2 ^ (bits I - 1).
Proof. pose proof bits_pos. apply Z.pow_pos_nonneg; lia. Qed.

Lemma wrap_mod (z : Z) : wrap I z mod 2 ^ bits I = z mod 2 ^ bits I.
Proof.
  pose proof pow2_half_pos as Hh. pose proof pow2_bits_split as Hs.
  unfold wrap; cbv zeta.
  destruct (is_signed I && (2 ^ (bits I - 1) <=? z mod 2 ^ bits I)).
  - replace (z mod 2 ^ bits I - 2 ^ bits I)
      with (z mod 2 ^ bits I + (-1) * 2 ^ bits I) by lia.
    rewrite Z.mod_add by lia. apply Z.mod_mod. lia.
  - apply Z.mod_mod. lia.
Qed.

Lemma wrap_in_range (z : Z) : in_range I (wrap I z) = true.
Proof.
  pose proof pow2_half_pos as Hh. pose proof pow2_bits_split as Hs.
  assert (Hu : 0 <= z mod 2 ^ bits I < 2 ^ bits I)
    by (apply Z.mod_pos_bound; lia).
  unfold wrap, in_range; cbv zeta.
  destruct (is_signed I); cbn [andb].
  - destruct (Z.leb_spec (2 ^ (bits I - 1)) (z mod 2 ^ bits I));
      apply andb_true_intro; split;
      first [ apply Z.leb_le | apply Z.ltb_lt ]; lia.
  - apply andb_true_intro; split;
      first [ apply Z.leb_le | apply Z.ltb_lt ]; lia.
Qed.

Lemma wrap_id (z : Z) : in_range I z = true -> wrap I z = z.
Proof.
  pose proof pow2_half_pos as Hh. pose proof pow2_bits_split as Hs.
  unfold wrap, in_range; cbv zeta. intros Hr.
  destruct (is_signed I); cbn [andb].
  - apply andb_prop in Hr. destruct Hr as [Hlo Hhi].
    apply Z.leb_le in Hlo. apply Z.ltb_lt in Hhi.
    destruct (Z.neg_nonneg_cases z) as [Hneg | Hnn].
    + assert (Hm : z mod 2 ^ bits I = z + 2 ^ bits I).
      { symmetry. apply Z.mod_unique with (q := -1); lia. }
      rewrite Hm.
      destruct (Z.leb_spec (2 ^ (bits I - 1)) (z + 2 ^ bits I)); lia.
    + rewrite Z.mod_small by lia.
      destruct (Z.leb_spec (2 ^ (bits I - 1)) z); lia.
  - apply andb_prop in Hr. destruct Hr as [Hlo Hhi].
    apply Z.leb_le in Hlo. apply Z.ltb_lt in Hhi.
    apply Z.mod_small. lia.
Qed.

Lemma in_range_iff_wrap (z : Z) : in_range I z = true <-> wrap I z = z.
Proof.
  split; [ apply wrap_id | ].
  intros H. rewrite <- H. apply wrap_in_range.
Qed.

(** Above position [l] a value of [[-2^l, 2^l)] shows only its sign. *)
Lemma testbit_sign_above (l a i : Z) :
  0 <= l -> - 2 ^ l <= a < 2 ^ l -> l <= i -> Z.testbit a i = (a <? 0).
Proof.
  intros Hl Ha Hi.
  destruct (Z.ltb_spec a 0) as [Hneg | Hnn].
  - destruct (Z.eq_dec a (-1)) as [-> | Hne].
    + apply Z.bits_m1. lia.
    + apply Z.bits_above_log2_neg; [ exact Hneg | ].
      assert (Hp : 0 < Z.pred (- a)) by lia.
      apply Z.lt_le_trans with (m := l); [ | exact Hi ].
      apply Z.log2_lt_pow2; lia.
  - destruct (Z.eq_dec a 0) as [-> | Hne].
    + apply Z.bits_0.
    + apply Z.bits_above_log2; [ exact Hnn | ].
      apply Z.lt_le_trans with (m := l); [ | exact Hi ].
      apply Z.log2_lt_pow2; lia.
Qed.

Lemma wrap_testbit_low (z i : Z) :
  0 <= i < bits I -> Z.testbit (wrap I z) i = Z.testbit z i.
Proof.
  intros Hi.
  rewrite <- (Z.mod_pow2_bits_low (wrap I z) (bits I) i) by lia.
  rewrite wrap_mod. apply Z.mod_pow2_bits_low. lia.
Qed.

Lemma wrap_testbit (z i : Z) :
  0 <= i -> Z.testbit (wrap I z) i = wrap_bit I z i.
Proof.
  intros Hi. pose proof bits_pos as Hb.
  pose proof (wrap_in_range z) as Hr.
  unfold wrap_bit. unfold in_range in Hr.
  destruct (is_signed I) eqn:Hsig.
  - apply andb_prop in Hr. destruct Hr as [Hlo Hhi].
    apply Z.leb_le in Hlo. apply Z.ltb_lt in Hhi.
    destruct (Z.lt_ge_cases i (bits I - 1)) as [Hlt | Hge].
    + rewrite Z.min_l by lia. apply wrap_testbit_low. lia.
    + rewrite Z.min_r by lia.
      rewrite <- (wrap_testbit_low z (bits I - 1)) by lia.
      rewrite (testbit_sign_above (bits I - 1) (wrap I z) i) by lia.
      symmetry. apply (testbit_sign_above (bits I - 1)); lia.
  - apply andb_prop in Hr. destruct Hr as [Hlo Hhi].
    apply Z.leb_le in Hlo. apply Z.ltb_lt in Hhi.
    destruct (Z.ltb_spec i (bits I)) as [Hlt | Hge]; cbn [andb].
    + apply wrap_testbit_low. lia.
    + rewrite <- (Z.mod_small (wrap I z) (2 ^ bits I)) by lia.
      apply Z.mod_pow2_bits_high. lia.
Qed.

Lemma in_range_testbit (z i : Z) :
  in_range I z = true -> 0 <= i -> Z.testbit z i = wrap_bit I z i.
Proof.
  intros Hr Hi. rewrite <- (wrap_id z Hr) at 1. apply wrap_testbit. exact Hi.
Qed.

(** Two values of the type that agree on the bits of the type are equal. *)
Lemma in_range_bits_inj (a b : Z) :
  in_range I a = true -> in_range I b = true ->
  (forall i, 0 <= i < bits I -> Z.testbit a i = Z.testbit b i) -> a = b.
Proof.
  intros Ha Hb Hbits. pose proof bits_pos as Hp.
  apply Z.bits_inj'. intros i Hi.
  rewrite (in_range_testbit a i Ha Hi), (in_range_testbit b i Hb Hi).
  unfold wrap_bit. destruct (is_signed I).
  - apply Hbits. lia.
  - destruct (Z.ltb_spec i (bits I)); cbn [andb]; [ apply Hbits; lia | reflexivity ].
Qed.

(** The bitwise operators do not leave the type: converting their
    result back changes nothing. *)
Ltac closed_under_bitop spec :=
  let a := fresh "a" in let b := fresh "b" in
  let Ha := fresh "Ha" in let Hb := fresh "Hb" in
  let i := fresh "i" in let Hi := fresh "Hi" in
  let Ea := fresh "Ea" in let Eb := fresh "Eb" in
  intros a b Ha Hb; apply Z.bits_inj'; intros i Hi;
  rewrite wrap_testbit by exact Hi;
  pose proof (in_range_testbit a i Ha Hi) as Ea;
  pose proof (in_range_testbit b i Hb Hi) as Eb;
  unfold wrap_bit in *; rewrite !spec;
  destruct (is_signed I);
  [ rewrite Ea, Eb; reflexivity
  | destruct (i <? bits I); cbn [andb] in *;
    [ reflexivity | rewrite Ea, Eb; reflexivity ] ].

Lemma wrap_lxor (a b : Z) :
  in_range I a = true -> in_range I b = true ->
  wrap I (Z.lxor a b) = Z.lxor a b.
Proof. revert a b. closed_under_bitop Z.lxor_spec. Qed.

Lemma wrap_lor (a b : Z) :
  in_range I a = true -> in_range I b = true ->
  wrap I (Z.lor a b) = Z.lor a b.
Proof. revert a b. closed_under_bitop Z.lor_spec. Qed.

Lemma wrap_land (a b : Z) :
  in_range I a = true -> in_range I b = true ->
  wrap I (Z.land a b) = Z.land a b.
Proof. revert a b. closed_under_bitop Z.land_spec. Qed.

End IntegerTypes.

Ltac low_bits :=
  repeat first
    [ rewrite wrap_testbit_low by (assumption || lia)
    | rewrite Z.lxor_spec | rewrite Z.lor_spec | rewrite Z.land_spec
    | rewrite Z.lnot_spec by lia ].

Section BitmaskProperties.

Variable T : enum_type.
Variable traits : bitmask_traits.
Hypothesis sizeof_pos : 0 < sizeof (underlying_type T).

Local Abbreviation U := (underlying_type T).
Local Notation "~~ m" := (operator_not T traits m) (at level 35, right associativity).

Lemma static_cast_in_range (v : Z) : in_range U (static_cast U v) = true.
Proof. apply wrap_in_range, sizeof_pos. Qed.

Lemma static_cast_id (v : Z) : in_range U v = true -> static_cast U v = v.
Proof. apply wrap_id, sizeof_pos. Qed.

Lemma from_enum_wf (v : Z) : wf T (from_enum T v).
Proof. apply static_cast_in_range. Qed.

Lemma all_flags_wf : wf T (all_flags T traits).
Proof. apply from_enum_wf. Qed.

Lemma operator_not_wf (m : bitmask) : wf T (~~ m).
Proof. apply static_cast_in_range. Qed.

Lemma bitmask_eq (m n : bitmask) : mask_ m = mask_ n -> m = n.
Proof. destruct m, n; cbn; intros ->; reflexivity. Qed.

(** Bit by bit, negation is exclusive or with the all-flags mask. *)
Lemma operator_not_testbit (m : bitmask) (i : Z) :
  0 <= i < bits U ->
  Z.testbit (mask_ (~~ m)) i
  = xorb (Z.testbit (mask_ m) i) (Z.testbit (mask_ (all_flags T traits)) i).
Proof.
  intros Hi. cbn [operator_not from_mask mask_]. unfold static_cast at 1.
  low_bits. reflexivity.
Qed.

Lemma operator_not_involutive (m : bitmask) : wf T m -> ~~ ~~ m = m.
Proof.
  intros Hm. apply bitmask_eq.
  apply (in_range_bits_inj U sizeof_pos);
    [ apply operator_not_wf | exact Hm | ].
  intros i Hi. rewrite !operator_not_testbit by exact Hi.
  rewrite xorb_assoc, xorb_nilpotent. apply xorb_false_r.
Qed.

Lemma remove_testbit (m : bitmask) (f i : Z) :
  0 <= i < bits U ->
  Z.testbit (mask_ (remove T m f)) i
  = xorb (Z.testbit (mask_ m) i) (Z.testbit f i).
Proof.
  intros Hi. cbn [remove operator_xor_assign_enum mask_]. unfold static_cast.
  low_bits. reflexivity.
Qed.

Lemma remove_wf (m : bitmask) (f : Z) : wf T (remove T m f).
Proof. apply wrap_in_range, sizeof_pos. Qed.

Lemma set_wf (m : bitmask) (f : Z) : wf T (set T m f).
Proof. apply wrap_in_range, sizeof_pos. Qed.

Lemma remove_mask (m : bitmask) (f : Z) :
  wf T m -> in_range U f = true ->
  mask_ (remove T m f) = Z.lxor (mask_ m) f.
Proof.
  intros Hm Hf. cbn [remove operator_xor_assign_enum mask_].
  rewrite (static_cast_id f Hf). apply wrap_lxor; assumption.
Qed.

Lemma set_mask (m : bitmask) (f : Z) :
  wf T m -> in_range U f = true ->
  mask_ (set T m f) = Z.lor (mask_ m) f.
Proof.
  intros Hm Hf. cbn [set operator_or_assign_enum mask_].
  rewrite (static_cast_id f Hf). apply wrap_lor; assumption.
Qed.

(** Inclusion of bit sets, as [is_set] tests it. *)
Lemma land_eq_iff (a f : Z) :
  Z.land a f = f <-> (forall i, 0 <= i -> Z.testbit f i = true -> Z.testbit a i = true).
Proof.
  split.
  - intros H i Hi Hf. rewrite <- H in Hf. rewrite Z.land_spec in Hf.
    apply andb_prop in Hf. tauto.
  - intros H. apply Z.bits_inj'. intros i Hi. rewrite Z.land_spec.
    destruct (Z.testbit f i) eqn:Hf.
    + rewrite (H i Hi Hf). reflexivity.
    + apply andb_false_r.
Qed.

Lemma land_lor_eq_iff (a f g : Z) :
  Z.land a (Z.lor f g) = Z.lor f g <-> Z.land a f = f /\ Z.land a g = g.
Proof.
  rewrite !land_eq_iff. split.
  - intros H. split; intros i Hi Hb; apply (H i Hi);
      rewrite Z.lor_spec, Hb; [ reflexivity | apply orb_true_r ].
  - intros [Hf Hg] i Hi Hb. rewrite Z.lor_spec in Hb.
    apply orb_prop in Hb. destruct Hb; [ apply Hf | apply Hg ]; assumption.
Qed.

End BitmaskProperties.

Section BitmaskLaws.

Variable T : enum_type.
Variable traits : bitmask_traits.
Hypothesis sizeof_pos : 0 < sizeof (underlying_type T).

Local Abbreviation U := (underlying_type T).
Local Notation "~~ m" := (operator_not T traits m) (at level 35, right associativity).

(** C1 (as amended).  Negation leaves every bit outside the all-flags
    pattern as it is: at a bit position of the mask type that is not set
    in [all_flags()], [~m] has the bit [m] has, so the bit is 0 in [~m]
    exactly when it is 0 in [m]. *)
Theorem negation_keeps_bits_outside_all_flags (m : bitmask) (i : Z) :
  0 <= i < bits U ->
  Z.testbit (mask_ (all_flags T traits)) i = false ->
  Z.testbit (mask_ (~~ m)) i = Z.testbit (mask_ m) i.
Proof.
  intros Hi Hout.
  rewrite (operator_not_testbit T traits sizeof_pos m i Hi), Hout.
  apply xorb_false_r.
Qed.

(** C2 (as amended).  For every mask [m], [~(~m) == m]; and
    [~(~m) == (m & all_flags())] holds exactly when [m] has no bit
    outside the declared universe, that is when [all_flags().is_set(m)]. *)
Theorem double_negation_and_all_flags (m : bitmask) :
  wf T m ->
  eq_mask (~~ ~~ m) m = true
  /\ eq_mask (~~ ~~ m) (operator_and T m (all_flags T traits))
     = is_set_mask (all_flags T traits) m.
Proof.
  intros Hm. rewrite (operator_not_involutive T traits sizeof_pos m Hm).
  unfold eq_mask, is_set_mask. split; [ apply Z.eqb_refl | ].
  cbn [operator_and from_mask mask_].
  rewrite (wrap_land U sizeof_pos) by (exact Hm || apply all_flags_wf, sizeof_pos).
  rewrite Z.eqb_sym, Z.land_comm. reflexivity.
Qed.

(** C3.  For every mask [m], [~m] is [m XOR all_flags()], bit by bit;
    it is the full NOT of the machine word only for the enumeration whose
    all-flags value has every bit of the representation set. *)
Theorem negation_is_xor_with_all_flags (m : bitmask) :
  wf T m ->
  in_range U (bitmask_all_flags_v traits) = true ->
  ~~ m = operator_xor T m (all_flags T traits)
  /\ mask_ (~~ m) = Z.lxor (mask_ m) (bitmask_all_flags_v traits)
  /\ (mask_ (~~ m) = static_cast U (Z.lnot (mask_ m))
      <-> bitmask_all_flags_v traits = static_cast U (-1)).
Proof.
  intros Hm Hall.
  assert (Hx : mask_ (~~ m) = Z.lxor (mask_ m) (bitmask_all_flags_v traits)).
  { cbn [operator_not from_mask mask_ all_flags from_enum].
    rewrite (static_cast_id T sizeof_pos _ Hall).
    apply (wrap_lxor U sizeof_pos); assumption. }
  split; [ reflexivity | ]. split; [ exact Hx | ].
  split.
  - intros Hnot.
    apply (in_range_bits_inj U sizeof_pos);
      [ exact Hall | apply static_cast_in_range, sizeof_pos | ].
    intros i Hi.
    assert (Hb : Z.testbit (mask_ (~~ m)) i
                 = Z.testbit (static_cast U (Z.lnot (mask_ m))) i)
      by (rewrite Hnot; reflexivity).
    rewrite Hx in Hb. unfold static_cast in *. revert Hb. low_bits.
    rewrite Z.bits_m1 by lia.
    destruct (Z.testbit (mask_ m) i), (Z.testbit (bitmask_all_flags_v traits) i);
      cbn; congruence.
  - intros Hones.
    apply (in_range_bits_inj U sizeof_pos);
      [ apply operator_not_wf, sizeof_pos
      | apply static_cast_in_range, sizeof_pos | ].
    intros i Hi. rewrite Hx, Hones. unfold static_cast. low_bits.
    rewrite Z.bits_m1 by lia.
    destruct (Z.testbit (mask_ m) i); reflexivity.
Qed.

(** C4.  [remove(f)] leaves [m XOR f] in the mask: every bit of [f]
    that is set in [m] is cleared, every bit of [f] that is not set in
    [m] is set, the other bits stay; so the bits of [f] are all clear
    afterwards exactly when they were all set before. *)
Theorem remove_is_xor (m : bitmask) (f : Z) :
  wf T m ->
  in_range U f = true ->
  mask_ (remove T m f) = Z.lxor (mask_ m) f
  /\ (forall i, 0 <= i -> Z.testbit f i = true ->
        Z.testbit (mask_ (remove T m f)) i = negb (Z.testbit (mask_ m) i))
  /\ (forall i, 0 <= i -> Z.testbit f i = false ->
        Z.testbit (mask_ (remove T m f)) i = Z.testbit (mask_ m) i)
  /\ (Z.land (mask_ (remove T m f)) f = 0 <-> is_set_enum T m f = true).
Proof.
  intros Hm Hf.
  rewrite (remove_mask T sizeof_pos m f Hm Hf).
  split; [ reflexivity | ].
  split; [ intros i Hi Hb; rewrite Z.lxor_spec, Hb; apply xorb_true_r | ].
  split; [ intros i Hi Hb; rewrite Z.lxor_spec, Hb; apply xorb_false_r | ].
  unfold is_set_enum. rewrite (static_cast_id T sizeof_pos f Hf).
  rewrite Z.eqb_eq, land_eq_iff. split.
  - intros H i Hi Hb.
    assert (Hz : Z.testbit (Z.land (Z.lxor (mask_ m) f) f) i = false)
      by (rewrite H; apply Z.bits_0).
    revert Hz. rewrite Z.land_spec, Z.lxor_spec, Hb.
    destruct (Z.testbit (mask_ m) i); cbn; congruence.
  - intros H. apply Z.bits_inj'. intros i Hi.
    rewrite Z.land_spec, Z.lxor_spec, Z.bits_0.
    destruct (Z.testbit f i) eqn:Hb; [ | apply andb_false_r ].
    rewrite (H i Hi Hb). reflexivity.
Qed.

(** C6.  [m.is_set(a | b)] is true if and only if [m.is_set(a)] and
    [m.is_set(b)] are, [is_set(f)] being [(m & f) == f] on the underlying
    integers. *)
Theorem is_set_or (m : bitmask) (a b : Z) :
  in_range U a = true ->
  in_range U b = true ->
  is_set_mask m (free_or T a b) = is_set_enum T m a && is_set_enum T m b
  /\ is_set_enum T m a = (Z.land (mask_ m) a =? a)
  /\ is_set_enum T m b = (Z.land (mask_ m) b =? b).
Proof.
  intros Ha Hb. unfold is_set_mask, is_set_enum.
  cbn [free_or operator_or_enum from_enum from_mask mask_].
  rewrite !(static_cast_id T sizeof_pos a Ha), !(static_cast_id T sizeof_pos b Hb).
  rewrite (wrap_lor U sizeof_pos a b Ha Hb).
  split; [ | split; reflexivity ].
  apply eq_true_iff_eq. rewrite andb_true_iff, !Z.eqb_eq.
  apply land_lor_eq_iff.
Qed.

(** C7.  [remove(f)] followed by [set(f)] leaves the original value
    united with [f]: from the mask value [v] the result is [v | f]. *)
Theorem remove_then_set (m : bitmask) (f : Z) :
  wf T m ->
  in_range U f = true ->
  set T (remove T m f) f = operator_or_enum T m f
  /\ mask_ (set T (remove T m f) f) = Z.lor (mask_ m) f.
Proof.
  intros Hm Hf.
  assert (Hv : mask_ (set T (remove T m f) f) = Z.lor (mask_ m) f).
  { rewrite (set_mask T sizeof_pos _ f (remove_wf T sizeof_pos m f) Hf).
    rewrite (remove_mask T sizeof_pos m f Hm Hf).
    apply Z.bits_inj'. intros i Hi. rewrite !Z.lor_spec, Z.lxor_spec.
    destruct (Z.testbit (mask_ m) i), (Z.testbit f i); reflexivity. }
  split; [ | exact Hv ].
  apply bitmask_eq. rewrite Hv.
  cbn [operator_or_enum from_mask mask_].
  rewrite (static_cast_id T sizeof_pos f Hf).
  symmetry. apply (wrap_lor U sizeof_pos); assumption.
Qed.

(** C9.  For every mask [m], also one whose value has bits outside the
    registered all-flags universe, negating twice returns [m] exactly:
    [~(~m) == m]. *)
Theorem double_negation_restores (m : bitmask) :
  wf T m -> ~~ ~~ m = m /\ eq_mask (~~ ~~ m) m = true.
Proof.
  intros Hm. rewrite (operator_not_involutive T traits sizeof_pos m Hm).
  split; [ reflexivity | apply Z.eqb_refl ].
Qed.

(** C10.  Applying [remove(f)] twice restores the mask exactly, whether
    or not the bits of [f] were set at the start. *)
Theorem remove_twice_restores (m : bitmask) (f : Z) :
  wf T m -> remove T (remove T m f) f = m.
Proof.
  intros Hm. apply bitmask_eq.
  apply (in_range_bits_inj U sizeof_pos);
    [ apply remove_wf, sizeof_pos | exact Hm | ].
  intros i Hi. rewrite !(remove_testbit T sizeof_pos) by exact Hi.
  rewrite xorb_assoc, xorb_nilpotent. apply xorb_false_r.
Qed.

End BitmaskLaws.

Section FreeOperators.

Variable T : enum_type.
Variable traits : bitmask_traits.

Local Abbreviation U := (underlying_type T).

(** Whichever overload an [enum_type] argument selects, the member
    comparison is made with the mask built from the value. *)
Lemma with_enum_arg_mask {A : Type}
    (f_int : bitmask -> Z -> A) (f_mask : bitmask -> bitmask -> A) :
  (forall m o, f_mask m o = f_int m (mask_ o)) ->
  forall m value,
    with_enum_arg T f_int f_mask m value = f_mask m (from_enum T value).
Proof.
  intros Hov m value. unfold with_enum_arg.
  destruct (is_scoped_enum_v T); [ reflexivity | ].
  rewrite Hov. reflexivity.
Qed.

(** C8.  With the raw value [b] on the left and the mask [a] on the
    right, each free comparison returns what the member comparison of [a]
    with [b] returns, the direction flipped for the orderings; the member
    [a < b] is the negation of the free [b <= a]; and the free operators
    on raw enumeration values return the mask the member operators return
    on the masks built from these values. *)
Theorem free_operators_agree (a : bitmask) (b l r : Z) :
  (free_eq_int b a = eq_int a b /\ free_ne_int b a = ne_int a b
   /\ free_lt_int b a = gt_int a b /\ free_gt_int b a = lt_int a b
   /\ free_le_int b a = ge_int a b /\ free_ge_int b a = le_int a b)
  /\ (free_lt_int b a = (b <? mask_ a) /\ free_gt_int b a = (mask_ a <? b)
      /\ free_le_int b a = (b <=? mask_ a) /\ free_ge_int b a = (mask_ a <=? b))
  /\ lt_int a b = negb (free_le_int b a)
  /\ (free_eq_enum T b a = eq_mask a (from_enum T b)
      /\ free_ne_enum T b a = ne_mask a (from_enum T b)
      /\ free_lt_enum T b a = gt_mask a (from_enum T b)
      /\ free_gt_enum T b a = lt_mask a (from_enum T b)
      /\ free_le_enum T b a = ge_mask a (from_enum T b)
      /\ free_ge_enum T b a = le_mask a (from_enum T b))
  /\ (free_lt_enum T b a = (static_cast U b <? mask_ a)
      /\ free_le_enum T b a = (static_cast U b <=? mask_ a))
  /\ lt_mask a (from_enum T b) = negb (free_le_enum T b a)
  /\ (free_or T l r = operator_or T (from_enum T l) (from_enum T r)
      /\ free_and T l r = operator_and T (from_enum T l) (from_enum T r)
      /\ free_xor T l r = operator_xor T (from_enum T l) (from_enum T r)
      /\ free_not T traits l = operator_not T traits (from_enum T l)).
Proof.
  assert (Henum : forall (f_int : bitmask -> Z -> bool) f_mask,
             (forall m o, f_mask m o = f_int m (mask_ o)) ->
             with_enum_arg T f_int f_mask a b = f_mask a (from_enum T b))
    by (intros f_int f_mask Hov; apply with_enum_arg_mask, Hov).
  unfold free_eq_enum, free_ne_enum, free_lt_enum, free_gt_enum,
    free_le_enum, free_ge_enum.
  rewrite !Henum by reflexivity.
  unfold free_eq_int, free_ne_int, free_lt_int, free_gt_int, free_le_int,
    free_ge_int, gt_int, lt_int, ge_int, le_int, gt_mask, lt_mask, ge_mask,
    le_mask.
  cbn [from_enum mask_].
  rewrite !Z.gtb_ltb, !Z.geb_leb, !Z.ltb_antisym.
  repeat split; reflexivity.
Qed.

End FreeOperators.

(** ** Registration *)

Section RegistrationProperties.

Variable INT : int_type.
Variable cplusplus : Z.
Variable T : enum_type.
Hypothesis sizeof_pos : 0 < sizeof (underlying_type T).

Local Abbreviation U := (underlying_type T).

Lemma in_range_0 : in_range U 0 = true.
Proof.
  pose proof (pow2_half_pos U sizeof_pos) as Hh.
  pose proof (pow2_bits_split U sizeof_pos) as Hs.
  unfold in_range. destruct (is_signed U);
    apply andb_true_intro; split;
    first [ apply Z.leb_le | apply Z.ltb_lt ]; lia.
Qed.

Lemma in_range_lor (a b : Z) :
  in_range U a = true -> in_range U b = true -> in_range U (Z.lor a b) = true.
Proof.
  intros Ha Hb. apply (in_range_iff_wrap U sizeof_pos).
  apply (wrap_lor U sizeof_pos); assumption.
Qed.

Lemma union_of_in_range (args : list Z) :
  Forall (fun v => in_range U v = true) args -> in_range U (union_of args) = true.
Proof.
  induction 1 as [ | v rest Hv _ IH ]; cbn [union_of fold_right].
  - apply in_range_0.
  - apply in_range_lor; assumption.
Qed.

Lemma combine_flags_lor (result value : Z) :
  in_range U result = true -> in_range U value = true ->
  combine_flags T result value = Z.lor result value.
Proof.
  intros Hr Hv. unfold combine_flags, static_cast.
  rewrite (wrap_id U sizeof_pos value Hv).
  apply (wrap_lor U sizeof_pos); assumption.
Qed.

Lemma fold_left_combine_flags (args : list Z) :
  Forall (fun v => in_range U v = true) args ->
  forall result, in_range U result = true ->
    fold_left (combine_flags T) args result = Z.lor result (union_of args).
Proof.
  induction 1 as [ | v rest Hv _ IH ]; intros result Hr;
    cbn [fold_left union_of fold_right].
  - symmetry. apply Z.lor_0_r.
  - rewrite (combine_flags_lor result v Hr Hv).
    rewrite IH by (apply in_range_lor; assumption).
    symmetry. apply Z.lor_assoc.
Qed.

Lemma calculate_all_flags_cpp_17_union (args : list Z) :
  Forall (fun v => in_range U v = true) args ->
  calculate_all_flags_cpp_17 T args = union_of args.
Proof.
  intros Hargs. unfold calculate_all_flags_cpp_17, static_cast.
  rewrite (fold_left_combine_flags args Hargs 0 in_range_0), Z.lor_0_l.
  apply (wrap_id U sizeof_pos), union_of_in_range, Hargs.
Qed.

Lemma calculate_all_flags_cpp_before_17_union (args : list Z) :
  Forall (fun v => in_range U v = true) args ->
  forall arg, in_range U arg = true ->
    calculate_all_flags_cpp_before_17 T arg args = union_of (arg :: args).
Proof.
  induction 1 as [ | v rest Hv Hrest IH ]; intros arg Ha;
    cbn [calculate_all_flags_cpp_before_17]; unfold static_cast.
  - cbn [union_of fold_right]. rewrite Z.lor_0_r.
    apply (wrap_id U sizeof_pos), Ha.
  - rewrite (IH v Hv).
    assert (Hu : in_range U (union_of (v :: rest)) = true)
      by (apply union_of_in_range; constructor; assumption).
    rewrite (wrap_id U sizeof_pos arg Ha), (wrap_id U sizeof_pos _ Hu).
    apply (wrap_lor U sizeof_pos); assumption.
Qed.

Lemma calculate_all_flags_args_union (arg : Z) (args : list Z) :
  Forall (fun v => in_range U v = true) (arg :: args) ->
  calculate_all_flags_args cplusplus T arg args = union_of (arg :: args).
Proof.
  intros Hall. unfold calculate_all_flags_args.
  destruct (cplusplus <? 201703).
  - inversion Hall; subst.
    apply calculate_all_flags_cpp_before_17_union; assumption.
  - apply calculate_all_flags_cpp_17_union, Hall.
Qed.

Lemma calculate_all_flags_noargs_narrow :
  is_signed INT = true ->
  bits U < bits INT - 1 ->
  calculate_all_flags_noargs INT T = Some (static_cast U (-1)).
Proof.
  intros Hsig Hnarrow. pose proof (bits_pos U sizeof_pos) as Hb.
  assert (Hp : 0 < 2 ^ bits U) by (apply Z.pow_pos_nonneg; lia).
  assert (Hlt : 2 ^ bits U < 2 ^ (bits INT - 1))
    by (apply Z.pow_lt_mono_r; lia).
  assert (Hint : forall v, 0 <= v <= 2 ^ bits U -> in_range INT v = true).
  { intros v Hv. unfold in_range. rewrite Hsig.
    apply andb_true_intro; split;
      first [ apply Z.leb_le | apply Z.ltb_lt ]; lia. }
  assert (Hsz : 0 < sizeof INT).
  { unfold bits, CHAR_BIT in *. lia. }
  unfold calculate_all_flags_noargs, int_shl, int_sub.
  fold (bits U).
  replace ((0 <=? bits U) && (bits U <? bits INT)) with true
    by (symmetry; apply andb_true_intro; split;
        [ apply Z.leb_le | apply Z.ltb_lt ]; lia).
  cbn [bind]. rewrite Z.mul_1_l.
  rewrite (wrap_id INT Hsz (2 ^ bits U)) by (apply Hint; lia).
  rewrite (Hint (2 ^ bits U - 1)) by lia.
  cbn [bind]. f_equal.
  unfold static_cast, wrap; cbv zeta.
  replace ((2 ^ bits U - 1) mod 2 ^ bits U) with (-1 mod 2 ^ bits U);
    [ reflexivity | ].
  rewrite (Z.mod_small (2 ^ bits U - 1)) by lia.
  symmetry. apply Z.mod_unique with (q := -1); lia.
Qed.

(** X20.  A registration that lists flags records their union, whichever
    language version compiles it. *)
Lemma enable_with_flags (arg : Z) (args : list Z) :
  Forall (fun v => in_range U v = true) (arg :: args) ->
  DEADDEV_ENABLE_BITMASK INT cplusplus T (arg :: args)
  = Some {| enable := true; traits_all_flags := union_of (arg :: args) |}
  /\ DEADDEV_ENABLE_BITMASK_EXTERNAL INT cplusplus T (arg :: args)
     = DEADDEV_ENABLE_BITMASK INT cplusplus T (arg :: args).
Proof.
  intros Hall. split; [ | reflexivity ].
  unfold DEADDEV_ENABLE_BITMASK, calculate_all_flags. cbn [bind].
  rewrite (calculate_all_flags_args_union arg args Hall). reflexivity.
Qed.

(** X21.  Without a list, an underlying type narrower than [int] gets every
    bit of its representation set. *)
Lemma enable_without_flags_narrow :
  is_signed INT = true ->
  bits U < bits INT - 1 ->
  DEADDEV_ENABLE_BITMASK INT cplusplus T []
  = Some {| enable := true; traits_all_flags := static_cast U (-1) |}.
Proof.
  intros Hsig Hnarrow.
  unfold DEADDEV_ENABLE_BITMASK, calculate_all_flags.
  rewrite (calculate_all_flags_noargs_narrow Hsig Hnarrow). reflexivity.
Qed.

(** X22.  Without a list, an underlying type as wide as [int] or wider makes
    the shift undefined: the registration has no all-flags value. *)
Lemma enable_without_flags_wide :
  bits INT <= bits U -> DEADDEV_ENABLE_BITMASK INT cplusplus T [] = None.
Proof.
  intros Hwide.
  unfold DEADDEV_ENABLE_BITMASK, calculate_all_flags,
    calculate_all_flags_noargs, int_shl.
  fold (bits U).
  replace (bits U <? bits INT) with false
    by (symmetry; apply Z.ltb_ge; exact Hwide).
  rewrite andb_false_r. reflexivity.
Qed.

End RegistrationProperties.

(** ** The test suite and concrete registrations *)

Example simple_registration :
  DEADDEV_ENABLE_BITMASK int32_t 201402 simple_bitmask_flag_bits
    [OPTION_0_BIT; OPTION_1_BIT; OPTION_2_BIT] = Some test_traits
  /\ DEADDEV_ENABLE_BITMASK int32_t 202002 scoped_bitmask_flag_bits
       [OPTION_0_BIT; OPTION_1_BIT; OPTION_2_BIT] = Some test_traits.
Proof. split; reflexivity. Qed.

(** [TEST(simple_enum, bitwise_negation)] and
    [TEST(scoped_enum, bitwise_negation)] *)
Example test_bitwise_negation :
  with_enum_arg simple_bitmask_flag_bits eq_int eq_mask
    (operator_not simple_bitmask_flag_bits test_traits
       (free_or simple_bitmask_flag_bits OPTION_1_BIT OPTION_2_BIT))
    OPTION_0_BIT = true
  /\ with_enum_arg scoped_bitmask_flag_bits eq_int eq_mask
       (operator_not scoped_bitmask_flag_bits test_traits
          (free_or scoped_bitmask_flag_bits OPTION_1_BIT OPTION_2_BIT))
       OPTION_0_BIT = true.
Proof. split; reflexivity. Qed.

(** [TEST(simple_enum, bitwise_xor)] and [TEST(simple_enum, bitwise_and)] *)
Example test_bitwise_xor_and :
  let flags := free_or simple_bitmask_flag_bits OPTION_1_BIT OPTION_2_BIT in
  mask_ (operator_xor_enum simple_bitmask_flag_bits flags OPTION_0_BIT) = 0x0d
  /\ mask_ (operator_xor_enum simple_bitmask_flag_bits flags OPTION_1_BIT)
     = OPTION_2_BIT
  /\ eq_int (operator_and_enum simple_bitmask_flag_bits flags OPTION_0_BIT) 0
     = true
  /\ mask_ (operator_and_enum simple_bitmask_flag_bits flags OPTION_1_BIT)
     = OPTION_1_BIT.
Proof. repeat split; reflexivity. Qed.

(** An 8-bit and a signed 16-bit enumeration registered without a list. *)
Example narrow_registrations :
  DEADDEV_ENABLE_BITMASK int32_t 202002
    {| underlying_type := uint8_t; is_scoped_enum_v := true |} []
  = Some {| enable := true; traits_all_flags := 0xff |}
  /\ DEADDEV_ENABLE_BITMASK int32_t 202002
       {| underlying_type := int16_t; is_scoped_enum_v := true |} []
     = Some {| enable := true; traits_all_flags := -1 |}.
Proof. split; reflexivity. Qed.

(** C5 (the code departs from it).  A registration with an empty flag
    list should record the pattern with every bit of the representation
    set.  For an enumeration over a 32-bit type on a platform whose [int]
    has 32 bits, [1 << 32] is undefined and the registration has no
    all-flags value, where the pattern [0xFFFFFFFF] is expected. *)
Theorem enable_without_flags_uint32 :
  DEADDEV_ENABLE_BITMASK int32_t 202002
    {| underlying_type := uint32_t; is_scoped_enum_v := true |} [] = None
  /\ DEADDEV_ENABLE_BITMASK_EXTERNAL int32_t 202002
       {| underlying_type := uint32_t; is_scoped_enum_v := true |} [] = None
  /\ static_cast uint32_t (-1) = 0xFFFFFFFF.
Proof. repeat split; reflexivity. Qed.

(** C1 fails as stated: with the flags of the test suite registered, the
    mask [0x10] has bit 4 set, outside the all-flags pattern [0x0d], and
    its negation [0x1d] still has it. *)
Lemma negation_clears_outside_counterexample :
  ~ (forall (m : bitmask) (i : Z),
        wf simple_bitmask_flag_bits m ->
        0 <= i < bits uint16_t ->
        Z.testbit (mask_ (all_flags simple_bitmask_flag_bits test_traits)) i
        = false ->
        Z.testbit (mask_ (operator_not simple_bitmask_flag_bits test_traits m)) i
        = false).
Proof.
  intros H.
  assert (Hi : 0 <= 4 < bits uint16_t) by (unfold bits; cbn; lia).
  specialize (H (from_mask 0x10) 4 eq_refl Hi eq_refl).
  vm_compute in H. discriminate H.
Qed.

(** C2 fails as stated: for the mask [0x10], [~(~m)] is [0x10] and
    [m & all_flags()] is [0]. *)
Lemma double_negation_and_counterexample :
  ~ (forall m : bitmask,
        wf simple_bitmask_flag_bits m ->
        eq_mask (operator_not simple_bitmask_flag_bits test_traits
                   (operator_not simple_bitmask_flag_bits test_traits m))
                (operator_and simple_bitmask_flag_bits m
                   (all_flags simple_bitmask_flag_bits test_traits))
        = true).
Proof.
  intros H. specialize (H (from_mask 0x10) eq_refl).
  vm_compute in H. discriminate H.
Qed.

(** ** The laws at concrete masks *)

Lemma negation_keeps_bits_outside_all_flags_witness :
  0 <= 4 < bits uint16_t
  /\ Z.testbit (mask_ (all_flags simple_bitmask_flag_bits test_traits)) 4 = false
  /\ Z.testbit
       (mask_ (operator_not simple_bitmask_flag_bits test_traits (from_mask 0x18)))
       4
     = Z.testbit (mask_ (from_mask 0x18)) 4.
Proof.
  assert (Hi : 0 <= 4 < bits uint16_t) by (unfold bits; cbn; lia).
  split; [ exact Hi | ]. split; [ reflexivity | ].
  apply (negation_keeps_bits_outside_all_flags simple_bitmask_flag_bits
           test_traits eq_refl (from_mask 0x18) 4 Hi).
  reflexivity.
Defined.

Lemma double_negation_and_all_flags_witness :
  wf simple_bitmask_flag_bits (from_mask 0x18)
  /\ eq_mask (operator_not simple_bitmask_flag_bits test_traits
                (operator_not simple_bitmask_flag_bits test_traits
                   (from_mask 0x18)))
             (from_mask 0x18) = true
  /\ eq_mask (operator_not simple_bitmask_flag_bits test_traits
                (operator_not simple_bitmask_flag_bits test_traits
                   (from_mask 0x18)))
             (operator_and simple_bitmask_flag_bits (from_mask 0x18)
                (all_flags simple_bitmask_flag_bits test_traits))
     = is_set_mask (all_flags simple_bitmask_flag_bits test_traits)
         (from_mask 0x18).
Proof.
  split; [ reflexivity | ].
  apply (double_negation_and_all_flags simple_bitmask_flag_bits test_traits
           eq_refl (from_mask 0x18)).
  reflexivity.
Defined.

Lemma negation_is_xor_with_all_flags_witness :
  wf simple_bitmask_flag_bits (from_mask 0x0c)
  /\ in_range uint16_t (bitmask_all_flags_v test_traits) = true
  /\ operator_not simple_bitmask_flag_bits test_traits (from_mask 0x0c)
     = operator_xor simple_bitmask_flag_bits (from_mask 0x0c)
         (all_flags simple_bitmask_flag_bits test_traits)
  /\ mask_ (operator_not simple_bitmask_flag_bits test_traits (from_mask 0x0c))
     = Z.lxor 0x0c 0x0d
  /\ (mask_ (operator_not simple_bitmask_flag_bits test_traits (from_mask 0x0c))
      = static_cast uint16_t (Z.lnot 0x0c)
      <-> 0x0d = static_cast uint16_t (-1)).
Proof.
  split; [ reflexivity | ]. split; [ reflexivity | ].
  apply (negation_is_xor_with_all_flags simple_bitmask_flag_bits test_traits
           eq_refl (from_mask 0x0c));
    reflexivity.
Defined.

Lemma remove_is_xor_witness :
  wf simple_bitmask_flag_bits (from_mask 0x0c)
  /\ in_range uint16_t 0x05 = true
  /\ mask_ (remove simple_bitmask_flag_bits (from_mask 0x0c) 0x05) = 0x09.
Proof.
  split; [ reflexivity | ]. split; [ reflexivity | ].
  apply (remove_is_xor simple_bitmask_flag_bits eq_refl (from_mask 0x0c) 0x05);
    reflexivity.
Defined.

Lemma is_set_or_witness :
  in_range uint16_t 0x01 = true
  /\ in_range uint16_t 0x04 = true
  /\ is_set_mask (from_mask 0x0d) (free_or simple_bitmask_flag_bits 0x01 0x04)
     = is_set_enum simple_bitmask_flag_bits (from_mask 0x0d) 0x01
       && is_set_enum simple_bitmask_flag_bits (from_mask 0x0d) 0x04.
Proof.
  split; [ reflexivity | ]. split; [ reflexivity | ].
  apply (is_set_or simple_bitmask_flag_bits eq_refl (from_mask 0x0d) 0x01 0x04);
    reflexivity.
Defined.

Lemma remove_then_set_witness :
  wf simple_bitmask_flag_bits (from_mask 0x0c)
  /\ in_range uint16_t 0x05 = true
  /\ set simple_bitmask_flag_bits
       (remove simple_bitmask_flag_bits (from_mask 0x0c) 0x05) 0x05
     = operator_or_enum simple_bitmask_flag_bits (from_mask 0x0c) 0x05.
Proof.
  split; [ reflexivity | ]. split; [ reflexivity | ].
  apply (remove_then_set simple_bitmask_flag_bits eq_refl (from_mask 0x0c) 0x05);
    reflexivity.
Defined.

Lemma double_negation_restores_witness :
  wf simple_bitmask_flag_bits (from_mask 0x18)
  /\ operator_not simple_bitmask_flag_bits test_traits
       (operator_not simple_bitmask_flag_bits test_traits (from_mask 0x18))
     = from_mask 0x18.
Proof.
  split; [ reflexivity | ].
  apply (double_negation_restores simple_bitmask_flag_bits test_traits eq_refl
           (from_mask 0x18)).
  reflexivity.
Defined.

Lemma remove_twice_restores_witness :
  wf simple_bitmask_flag_bits (from_mask 0x0c)
  /\ remove simple_bitmask_flag_bits
       (remove simple_bitmask_flag_bits (from_mask 0x0c) 0x05) 0x05
     = from_mask 0x0c.
Proof.
  split; [ reflexivity | ].
  apply (remove_twice_restores simple_bitmask_flag_bits eq_refl (from_mask 0x0c)).
  reflexivity.
Defined.

(** * Further properties of the header *)

(** The example program registers its eight flags and runs to the end
    without a failed assertion. *)
Example example_main_returns :
  (traits <- DEADDEV_ENABLE_BITMASK int32_t 201402 some_bitmask_flag_bits
     [flag_0_bit; flag_1_bit; flag_2_bit; flag_3_bit;
      flag_4_bit; flag_5_bit; flag_6_bit; flag_7_bit] ;;
   example_main traits) = Some 0.
Proof. reflexivity. Qed.

(** Case analysis on every bit that occurs in the goal. *)
Ltac bit_cases :=
  repeat match goal with
    | |- context [Z.testbit ?x ?i] => destruct (Z.testbit x i)
    end;
  cbn; try reflexivity; try congruence; try (intuition congruence).

Section BitmaskAlgebra.

Variable T : enum_type.
Variable traits : bitmask_traits.
Hypothesis sizeof_pos : 0 < sizeof (underlying_type T).

Local Abbreviation U := (underlying_type T).
Local Notation "~~ m" := (operator_not T traits m) (at level 35, right associativity).
Local Notation "m ||| o" := (operator_or T m o) (at level 50, left associativity).
Local Notation "m &&& o" := (operator_and T m o) (at level 40, left associativity).
Local Notation "m ^^^ o" := (operator_xor T m o) (at level 45, left associativity).

Lemma wrap_wf (z : Z) : wf T {| mask_ := wrap U z |}.
Proof. apply wrap_in_range, sizeof_pos. Qed.

(** Two masks of the type with the same bits within the type are equal. *)
Lemma bitmask_bits_inj (m n : bitmask) :
  wf T m -> wf T n ->
  (forall i, 0 <= i < bits U ->
     Z.testbit (mask_ m) i = Z.testbit (mask_ n) i) ->
  m = n.
Proof.
  intros Hm Hn Hbits. apply bitmask_eq.
  apply (in_range_bits_inj U sizeof_pos); assumption.
Qed.

(** What [is_set] says bit by bit. *)
Lemma is_set_mask_bits (m o : bitmask) :
  is_set_mask m o = true
  <-> (forall i, 0 <= i -> Z.testbit (mask_ o) i = true ->
         Z.testbit (mask_ m) i = true).
Proof. unfold is_set_mask. rewrite Z.eqb_eq. apply land_eq_iff. Qed.

(** For masks of the type the bits of the type decide [is_set]. *)
Lemma is_set_mask_low_bits (m o : bitmask) :
  wf T m -> wf T o ->
  (is_set_mask m o = true
   <-> (forall i, 0 <= i < bits U -> Z.testbit (mask_ o) i = true ->
          Z.testbit (mask_ m) i = true)).
Proof.
  intros Hm Ho. rewrite is_set_mask_bits. split.
  - intros H i Hi. apply H. lia.
  - intros H i Hi.
    rewrite (in_range_testbit U sizeof_pos _ i Hm Hi),
            (in_range_testbit U sizeof_pos _ i Ho Hi).
    pose proof (bits_pos U sizeof_pos) as Hb.
    unfold wrap_bit. destruct (is_signed U).
    + apply H. lia.
    + destruct (Z.ltb_spec i (bits U)); cbn [andb];
        [ apply H; lia | discriminate ].
Qed.


(** X2.  After [set(f)] the flag is set, and so it is in [m | f]; this holds
    for a single flag and for a combined value alike. *)
Theorem set_then_is_set (m : bitmask) (f : Z) :
  is_set_enum T (set T m f) f = true
  /\ is_set_enum T (operator_or_enum T m f) f = true
  /\ is_set_mask (m ||| from_enum T f) (from_enum T f) = true.
Proof.
  assert (H : is_set_mask {| mask_ := wrap U (Z.lor (mask_ m) (static_cast U f)) |}
                (from_enum T f) = true).
  { apply is_set_mask_low_bits; [ apply wrap_wf | apply from_enum_wf, sizeof_pos | ].
    intros i Hi. cbn [mask_ from_enum]. low_bits.
    intros ->. apply orb_true_r. }
  repeat split; exact H.
Qed.

(** X3.  [set] never clears: what was set stays set. It is idempotent, and
    two [set] calls give the same mask in either order. *)
Theorem set_monotone_idempotent_commutes (m : bitmask) (f g : Z) :
  wf T m ->
  (is_set_enum T m g = true -> is_set_enum T (set T m f) g = true)
  /\ is_set_mask (set T m f) m = true
  /\ set T (set T m f) f = set T m f
  /\ set T (set T m f) g = set T (set T m g) f.
Proof.
  intros Hm. split; [ | split; [ | split ] ].
  - change (is_set_mask m (from_enum T g) = true ->
            is_set_mask (set T m f) (from_enum T g) = true).
    rewrite !is_set_mask_low_bits
      by (try apply wrap_wf; try apply (from_enum_wf T sizeof_pos); exact Hm).
    intros H i Hi Hb. cbn [mask_ set operator_or_assign_enum]. low_bits.
    rewrite (H i Hi Hb). reflexivity.
  - apply is_set_mask_low_bits; [ apply wrap_wf | exact Hm | ].
    intros i Hi Hb. cbn [mask_ set operator_or_assign_enum]. low_bits.
    rewrite Hb. reflexivity.
  - apply bitmask_bits_inj; try apply wrap_wf.
    intros i Hi. cbn [mask_ set operator_or_assign_enum]. unfold static_cast.
    low_bits. bit_cases.
  - apply bitmask_bits_inj; try apply wrap_wf.
    intros i Hi. cbn [mask_ set operator_or_assign_enum]. unfold static_cast.
    low_bits. bit_cases.
Qed.

Ltac unfold_ops :=
  cbn [mask_ from_mask from_enum all_flags default_bitmask
       operator_not operator_or operator_and operator_xor
       operator_or_enum operator_and_enum operator_xor_enum
       operator_or_assign operator_and_assign operator_xor_assign
       operator_or_assign_enum operator_and_assign_enum
       operator_xor_assign_enum set remove
       free_not free_or free_and free_xor to_enum to_mask];
  unfold static_cast.

Lemma bitmask_bits_iff (m n : bitmask) :
  wf T m -> wf T n ->
  (m = n <-> forall i, 0 <= i < bits U ->
               Z.testbit (mask_ m) i = Z.testbit (mask_ n) i).
Proof.
  intros Hm Hn. split; [ intros -> i _; reflexivity | ].
  apply bitmask_bits_inj; assumption.
Qed.

Lemma default_bitmask_wf : wf T default_bitmask.
Proof. apply (in_range_0 T sizeof_pos). Qed.

(** For values of the type the bits of the type decide disjointness. *)
Lemma land_zero_low_bits (a b : Z) :
  in_range U a = true -> in_range U b = true ->
  (Z.land a b = 0
   <-> forall i, 0 <= i < bits U ->
         Z.testbit a i && Z.testbit b i = false).
Proof.
  intros Ha Hb. split.
  - intros H i Hi. rewrite <- Z.land_spec, H. apply Z.bits_0.
  - intros H. apply (in_range_bits_inj U sizeof_pos).
    + apply (in_range_iff_wrap U sizeof_pos), (wrap_land U sizeof_pos); assumption.
    + apply (in_range_0 T sizeof_pos).
    + intros i Hi. rewrite Z.land_spec, Z.bits_0. apply H, Hi.
Qed.

(** X4.  [set(f)] followed by [remove(f)] clears the flag: the mask is
    [m & ~f] and none of the bits of [f] is left in it. *)
Theorem set_then_remove_clears (m : bitmask) (f : Z) :
  wf T m ->
  in_range U f = true ->
  remove T (set T m f) f
  = {| mask_ := static_cast U (Z.land (mask_ m) (Z.lnot f)) |}
  /\ Z.land (mask_ (remove T (set T m f) f)) f = 0
  /\ (f <> 0 -> is_set_enum T (remove T (set T m f) f) f = false).
Proof.
  intros Hm Hf.
  assert (Hz : Z.land (mask_ (remove T (set T m f) f)) f = 0).
  { apply land_zero_low_bits; [ apply wrap_wf | exact Hf | ].
    intros i Hi. unfold_ops. low_bits. bit_cases. }
  split; [ | split; [ exact Hz | ] ].
  - apply bitmask_bits_inj; try apply wrap_wf.
    intros i Hi. unfold_ops. low_bits. bit_cases.
  - intros Hne. unfold is_set_enum.
    rewrite (static_cast_id T sizeof_pos f Hf), Hz.
    apply Z.eqb_neq. congruence.
Qed.

(** X5.  [remove(f)] is the clearing [m & ~f] exactly when [f] is set in
    [m], and it is the same as [set(f)] exactly when [m] has no bit of
    [f]. *)
Theorem remove_clears_iff_is_set (m : bitmask) (f : Z) :
  wf T m ->
  in_range U f = true ->
  (remove T m f = {| mask_ := static_cast U (Z.land (mask_ m) (Z.lnot f)) |}
   <-> is_set_enum T m f = true)
  /\ (remove T m f = set T m f <-> Z.land (mask_ m) f = 0).
Proof.
  intros Hm Hf. split.
  - rewrite bitmask_bits_iff by apply wrap_wf.
    change (is_set_enum T m f) with (is_set_mask m (from_enum T f)).
    rewrite is_set_mask_low_bits
      by (exact Hm || apply (from_enum_wf T sizeof_pos)).
    split; intros H i Hi; specialize (H i Hi); revert H;
      unfold_ops; low_bits; bit_cases.
  - rewrite bitmask_bits_iff by apply wrap_wf.
    rewrite land_zero_low_bits by assumption.
    split; intros H i Hi; specialize (H i Hi); revert H;
      unfold_ops; low_bits; bit_cases.
Qed.

(** X6.  The empty flag is set in every mask, and the default-constructed
    mask, which equals the integer [0], has no other flag set. *)
Theorem is_set_of_zero_and_default (m : bitmask) (f : Z) :
  in_range U f = true ->
  is_set_enum T m 0 = true
  /\ eq_int default_bitmask 0 = true
  /\ (is_set_enum T default_bitmask f = true <-> f = 0).
Proof.
  intros Hf. unfold is_set_enum.
  rewrite (static_cast_id T sizeof_pos f Hf),
          (static_cast_id T sizeof_pos 0 (in_range_0 T sizeof_pos)).
  rewrite Z.land_0_r. cbn [default_bitmask mask_]. rewrite Z.land_0_l.
  split; [ reflexivity | ]. split; [ reflexivity | ].
  rewrite Z.eqb_eq. split; congruence.
Qed.

(** X7.  [is_set] orders the masks by inclusion: it is reflexive, transitive
    and antisymmetric, and [m.is_set(o)] says that [m | o] is [m] and
    that [m & o] is [o]. *)
Theorem is_set_is_inclusion (m o p : bitmask) :
  wf T m ->
  wf T o ->
  is_set_mask m m = true
  /\ (is_set_mask m o = true -> is_set_mask o p = true ->
      is_set_mask m p = true)
  /\ (is_set_mask m o = true -> is_set_mask o m = true -> m = o)
  /\ (is_set_mask m o = true <-> m ||| o = m)
  /\ (is_set_mask m o = true <-> m &&& o = o).
Proof.
  intros Hm Ho. split; [ | split; [ | split; [ | split ] ] ].
  - apply is_set_mask_bits. auto.
  - rewrite !is_set_mask_bits. intros H1 H2 i Hi Hb. auto.
  - unfold is_set_mask. rewrite !Z.eqb_eq. intros H1 H2.
    apply bitmask_eq. rewrite <- H2, Z.land_comm. exact H1.
  - rewrite bitmask_bits_iff by (apply wrap_wf || exact Hm).
    rewrite is_set_mask_low_bits by assumption.
    split; intros H i Hi; specialize (H i Hi); revert H;
      unfold_ops; low_bits; bit_cases.
  - rewrite bitmask_bits_iff by (apply wrap_wf || exact Ho).
    rewrite is_set_mask_low_bits by assumption.
    split; intros H i Hi; specialize (H i Hi); revert H;
      unfold_ops; low_bits; bit_cases.
Qed.

Ltac mask_ext :=
  apply bitmask_bits_inj;
  [ first [ apply wrap_wf | assumption | apply default_bitmask_wf ]
  | first [ apply wrap_wf | assumption | apply default_bitmask_wf ]
  | let i := fresh "i" in let Hi := fresh "Hi" in
    intros i Hi; unfold_ops; low_bits ].

Lemma within_all_flags_bits (m : bitmask) :
  wf T m ->
  is_set_mask (all_flags T traits) m = true ->
  forall i, 0 <= i < bits U ->
    Z.testbit (mask_ m) i = true ->
    Z.testbit (mask_ (all_flags T traits)) i = true.
Proof.
  intros Hm Hin.
  apply (proj1 (is_set_mask_low_bits _ _ (all_flags_wf T traits sizeof_pos) Hm)).
  exact Hin.
Qed.

(** X8.  Within the declared universe negation is a complement: a mask with
    no bit outside [all_flags()] and its negation share no bit, together
    they make [all_flags()], and the negation stays within the universe.
    Negating [all_flags()] gives the empty mask and negating the empty
    mask gives [all_flags()]. *)
Theorem negation_complements_within_all_flags (m : bitmask) :
  wf T m ->
  is_set_mask (all_flags T traits) m = true ->
  m &&& ~~ m = default_bitmask
  /\ m ||| ~~ m = all_flags T traits
  /\ is_set_mask (all_flags T traits) (~~ m) = true
  /\ ~~ all_flags T traits = default_bitmask
  /\ ~~ default_bitmask = all_flags T traits.
Proof.
  intros Hm Hin.
  pose proof (within_all_flags_bits m Hm Hin) as Hbits. clear Hin.
  rename Hbits into Hin.
  split; [ | split; [ | split; [ | split ] ] ].
  - mask_ext. specialize (Hin i Hi). revert Hin. unfold_ops. low_bits.
    rewrite Z.bits_0. bit_cases.
  - mask_ext. specialize (Hin i Hi). revert Hin. unfold_ops. low_bits.
    bit_cases.
  - apply is_set_mask_low_bits; try apply wrap_wf.
    intros i Hi. specialize (Hin i Hi). revert Hin. unfold_ops. low_bits.
    bit_cases.
  - mask_ext. rewrite Z.bits_0. bit_cases.
  - mask_ext. rewrite Z.bits_0. bit_cases.
Qed.

(** X9.  De Morgan's laws hold for the masks that have no bit outside the
    declared universe. *)
Theorem de_morgan_within_all_flags (a b : bitmask) :
  wf T a ->
  wf T b ->
  is_set_mask (all_flags T traits) a = true ->
  is_set_mask (all_flags T traits) b = true ->
  ~~ (a ||| b) = ~~ a &&& ~~ b
  /\ ~~ (a &&& b) = ~~ a ||| ~~ b.
Proof.
  intros Ha Hb Hina Hinb.
  pose proof (within_all_flags_bits a Ha Hina) as Ba.
  pose proof (within_all_flags_bits b Hb Hinb) as Bb.
  clear Hina Hinb. rename Ba into Hina. rename Bb into Hinb.
  split; mask_ext; specialize (Hina i Hi); specialize (Hinb i Hi);
    revert Hina Hinb; unfold_ops; low_bits; bit_cases.
Qed.

(** X10.  [|] and [&] are commutative and associative, each distributes over
    the other, and on masks of the type they are idempotent and absorb
    each other; the empty mask is neutral for [|] and absorbing for [&]. *)
Theorem or_and_lattice (m o p : bitmask) :
  wf T m ->
  (m ||| o = o ||| m /\ m &&& o = o &&& m)
  /\ ((m ||| o) ||| p = m ||| (o ||| p) /\ (m &&& o) &&& p = m &&& (o &&& p))
  /\ (m &&& (o ||| p) = (m &&& o) ||| (m &&& p)
      /\ m ||| (o &&& p) = (m ||| o) &&& (m ||| p))
  /\ (m ||| m = m /\ m &&& m = m)
  /\ (m &&& (m ||| o) = m /\ m ||| (m &&& o) = m)
  /\ (m ||| default_bitmask = m /\ m &&& default_bitmask = default_bitmask).
Proof.
  intros Hm.
  repeat split; mask_ext; try rewrite Z.bits_0; bit_cases.
Qed.

(** X11.  [^] is commutative and associative, the empty mask is neutral for
    it, a mask cancels itself, and applying the same operand twice
    restores the mask. *)
Theorem xor_group (m o p : bitmask) :
  wf T m ->
  m ^^^ o = o ^^^ m
  /\ (m ^^^ o) ^^^ p = m ^^^ (o ^^^ p)
  /\ m ^^^ default_bitmask = m
  /\ m ^^^ m = default_bitmask
  /\ (m ^^^ o) ^^^ o = m.
Proof.
  intros Hm.
  repeat split; mask_ext; try rewrite Z.bits_0; bit_cases.
Qed.

(** X12.  Updates with different flags do not depend on their order:
    two [remove] calls commute, and a [set] commutes with a [remove] of
    a flag that shares no bit with it. *)
Theorem updates_commute (m : bitmask) (f g : Z) :
  in_range U f = true ->
  in_range U g = true ->
  remove T (remove T m f) g = remove T (remove T m g) f
  /\ (Z.land f g = 0 ->
      set T (remove T m f) g = remove T (set T m g) f).
Proof.
  intros Hf Hg. split.
  - mask_ext. bit_cases.
  - intros Hd. pose proof (proj1 (land_zero_low_bits f g Hf Hg) Hd) as Hb.
    clear Hd. rename Hb into Hd.
    mask_ext. specialize (Hd i Hi). revert Hd. bit_cases.
Qed.

(** X13.  The conversions lose nothing: a value of the enumeration survives
    the way into a mask and back, as an enumeration value and as an
    integer, and a mask is rebuilt from either conversion. *)
Theorem conversions_round_trip (m : bitmask) (v : Z) :
  wf T m ->
  in_range U v = true ->
  to_enum T (from_enum T v) = v
  /\ to_mask (from_enum T v) = v
  /\ to_mask (from_mask v) = v
  /\ from_enum T (to_enum T m) = m
  /\ from_mask (to_mask m) = m
  /\ to_enum T m = to_mask m.
Proof.
  intros Hm Hv. unfold to_enum, to_mask, from_enum, from_mask. cbn [mask_].
  rewrite !(static_cast_id T sizeof_pos v Hv).
  rewrite !(static_cast_id T sizeof_pos (mask_ m) Hm).
  destruct m. repeat split.
Qed.

End BitmaskAlgebra.

(** ** Comparisons *)

(** X14.  The comparisons make a total order of the masks: [==] holds of equal
    masks only, [<] is irreflexive, transitive and total, and the other
    operators are what [==] and [<] give. *)
Theorem comparisons_total_order (a b c : bitmask) :
  (eq_mask a b = true <-> a = b)
  /\ ne_mask a b = negb (eq_mask a b)
  /\ lt_mask a a = false
  /\ (lt_mask a b = true -> lt_mask b c = true -> lt_mask a c = true)
  /\ (lt_mask a b = false -> lt_mask b a = false -> a = b)
  /\ gt_mask a b = lt_mask b a
  /\ le_mask a b = negb (lt_mask b a)
  /\ ge_mask a b = negb (lt_mask a b).
Proof.
  unfold eq_mask, ne_mask, lt_mask, gt_mask, le_mask, ge_mask.
  destruct a as [x], b as [y], c as [z]. cbn [mask_].
  rewrite Z.gtb_ltb, Z.geb_leb, !Z.leb_antisym.
  repeat split.
  - intros H. apply Z.eqb_eq in H. congruence.
  - intros H. apply Z.eqb_eq. congruence.
  - apply Z.ltb_irrefl.
  - intros H1 H2. apply Z.ltb_lt in H1, H2. apply Z.ltb_lt. lia.
  - intros H1 H2. apply Z.ltb_ge in H1, H2. f_equal. lia.
Qed.

Section OrderAndInclusion.

Variable T : enum_type.
Hypothesis sizeof_pos : 0 < sizeof (underlying_type T).

Local Abbreviation U := (underlying_type T).

(** X15.  Over an unsigned underlying type the order agrees with inclusion: a
    mask whose bits are all set in [m] is not greater than [m]. *)
Theorem is_set_below_unsigned (m o : bitmask) :
  is_signed U = false ->
  wf T m ->
  is_set_mask m o = true ->
  le_mask o m = true /\ ge_mask m o = true /\ gt_mask o m = false.
Proof.
  intros Huns Hm Hset. unfold wf, in_range in Hm. rewrite Huns in Hm.
  apply andb_prop in Hm. destruct Hm as [Hlo _]. apply Z.leb_le in Hlo.
  unfold is_set_mask in Hset. apply Z.eqb_eq in Hset.
  assert (Hle : mask_ o <= mask_ m).
  { assert (Hd : Z.land (Z.ldiff (mask_ m) (mask_ o)) (mask_ o) = 0).
    { apply Z.bits_inj'. intros i Hi.
      rewrite Z.land_spec, Z.ldiff_spec, Z.bits_0. bit_cases. }
    assert (Hsum : mask_ m = Z.ldiff (mask_ m) (mask_ o) + mask_ o).
    { rewrite (Z.add_nocarry_lxor _ _ Hd), (Z.lxor_lor _ _ Hd).
      transitivity (Z.lor (Z.ldiff (mask_ m) (mask_ o))
                          (Z.land (mask_ m) (mask_ o)));
        [ symmetry; apply Z.lor_ldiff_and | rewrite Hset; reflexivity ]. }
    assert (Hnn : 0 <= Z.ldiff (mask_ m) (mask_ o))
      by (apply Z.ldiff_nonneg; left; exact Hlo).
    lia. }
  unfold le_mask, ge_mask, gt_mask.
  rewrite Z.geb_leb, Z.gtb_ltb.
  repeat split; [ apply Z.leb_le | apply Z.leb_le | apply Z.ltb_ge ]; exact Hle.
Qed.

End OrderAndInclusion.

(** ** Registration and the mask type together *)

Lemma union_of_testbit (args : list Z) (i : Z) :
  0 <= i ->
  Z.testbit (union_of args) i = existsb (fun v => Z.testbit v i) args.
Proof.
  intros Hi. induction args as [ | v rest IH ]; cbn [union_of fold_right existsb].
  - apply Z.bits_0.
  - rewrite Z.lor_spec. f_equal. exact IH.
Qed.

Lemma existsb_same_elements {A : Type} (p : A -> bool) (l l' : list A) :
  (forall x, In x l <-> In x l') -> existsb p l = existsb p l'.
Proof.
  intros Hsame. apply eq_true_iff_eq. rewrite !existsb_exists.
  split; intros [x [Hin Hp]]; exists x; split;
    solve [ exact Hp | apply Hsame; exact Hin ].
Qed.

Lemma union_of_same_elements (l l' : list Z) :
  (forall x, In x l <-> In x l') -> union_of l = union_of l'.
Proof.
  intros Hsame. apply Z.bits_inj'. intros i Hi.
  rewrite !union_of_testbit by exact Hi.
  apply existsb_same_elements, Hsame.
Qed.

Section RegistrationLaws.

Variable INT : int_type.
Variable T : enum_type.
Hypothesis sizeof_pos : 0 < sizeof (underlying_type T).

Local Abbreviation U := (underlying_type T).

(** X16.  The descriptor depends on the set of listed flags only: two lists
    with the same values, in any order and with any repetition, compiled
    under any language version, register the same descriptor. *)
Theorem registration_ignores_order_and_repeats
    (cplusplus cplusplus' : Z) (arg arg' : Z) (args args' : list Z) :
  Forall (fun v => in_range U v = true) (arg :: args) ->
  Forall (fun v => in_range U v = true) (arg' :: args') ->
  (forall v, In v (arg :: args) <-> In v (arg' :: args')) ->
  DEADDEV_ENABLE_BITMASK INT cplusplus T (arg :: args)
  = DEADDEV_ENABLE_BITMASK INT cplusplus' T (arg' :: args').
Proof.
  intros Hall Hall' Hsame.
  unfold DEADDEV_ENABLE_BITMASK, calculate_all_flags. cbn [bind].
  rewrite (calculate_all_flags_args_union cplusplus T sizeof_pos arg args Hall).
  rewrite (calculate_all_flags_args_union cplusplus' T sizeof_pos arg' args' Hall').
  rewrite (union_of_same_elements _ _ Hsame). reflexivity.
Qed.

(** X17.  Every listed flag is set in [all_flags()] of the registered
    descriptor, and so is the union of any two of them. *)
Theorem listed_flags_are_set
    (cplusplus : Z) (arg : Z) (args : list Z) (tr : bitmask_traits) (f g : Z) :
  Forall (fun v => in_range U v = true) (arg :: args) ->
  DEADDEV_ENABLE_BITMASK INT cplusplus T (arg :: args) = Some tr ->
  In f (arg :: args) ->
  In g (arg :: args) ->
  is_set_enum T (all_flags T tr) f = true
  /\ is_set_mask (all_flags T tr) (free_or T f g) = true.
Proof.
  intros Hall Hreg Hf Hg.
  unfold DEADDEV_ENABLE_BITMASK, calculate_all_flags in Hreg. cbn [bind] in Hreg.
  rewrite (calculate_all_flags_args_union cplusplus T sizeof_pos arg args Hall)
    in Hreg.
  injection Hreg as <-.
  pose proof (proj1 (Forall_forall _ _) Hall) as Hrange.
  assert (Hu : in_range U (union_of (arg :: args)) = true)
    by (apply (union_of_in_range T sizeof_pos), Hall).
  assert (Hbit : forall v, In v (arg :: args) ->
            forall i, 0 <= i -> Z.testbit v i = true ->
              Z.testbit (union_of (arg :: args)) i = true).
  { intros v Hv i Hi Hb. rewrite union_of_testbit by exact Hi.
    apply existsb_exists. exists v. split; assumption. }
  unfold is_set_enum, is_set_mask.
  cbn [all_flags bitmask_all_flags_v traits_all_flags from_enum mask_
       free_or operator_or_enum from_mask].
  change (Z.lor arg (union_of args)) with (union_of (arg :: args)).
  rewrite !(static_cast_id T sizeof_pos _ Hu).
  rewrite !(static_cast_id T sizeof_pos f (Hrange f Hf)).
  rewrite !(static_cast_id T sizeof_pos g (Hrange g Hg)).
  rewrite (wrap_lor U sizeof_pos f g (Hrange f Hf) (Hrange g Hg)).
  rewrite !Z.eqb_eq, !land_eq_iff. split.
  - apply Hbit, Hf.
  - intros i Hi Hb. rewrite Z.lor_spec in Hb. apply orb_prop in Hb.
    destruct Hb as [Hb | Hb]; [ apply (Hbit f Hf) | apply (Hbit g Hg) ];
      assumption.
Qed.


(** X19.  Registered without a list over a type narrower than [int], an
    enumeration has every bit in its universe: negation is then the full
    NOT of the machine word, and every mask is within the universe. *)
Theorem negation_after_registration_without_flags
    (cplusplus : Z) (tr : bitmask_traits) (m : bitmask) :
  is_signed INT = true ->
  bits U < bits INT - 1 ->
  DEADDEV_ENABLE_BITMASK INT cplusplus T [] = Some tr ->
  wf T m ->
  operator_not T tr m = {| mask_ := static_cast U (Z.lnot (mask_ m)) |}
  /\ is_set_mask (all_flags T tr) m = true.
Proof.
  intros Hsig Hnarrow Hreg Hm.
  unfold DEADDEV_ENABLE_BITMASK, calculate_all_flags in Hreg.
  rewrite (calculate_all_flags_noargs_narrow INT T sizeof_pos Hsig Hnarrow)
    in Hreg.
  cbn [bind] in Hreg. injection Hreg as <-. split.
  - apply (bitmask_bits_inj T sizeof_pos); try apply (wrap_in_range U sizeof_pos).
    intros i Hi.
    cbn [operator_not from_mask from_enum all_flags mask_ bitmask_all_flags_v
         traits_all_flags].
    unfold static_cast. low_bits. rewrite Z.bits_m1 by lia. bit_cases.
  - apply (is_set_mask_low_bits T sizeof_pos);
      [ apply (wrap_in_range U sizeof_pos) | exact Hm | ].
    intros i Hi _.
    cbn [from_enum all_flags mask_ bitmask_all_flags_v traits_all_flags].
    unfold static_cast. low_bits. apply Z.bits_m1. lia.
Qed.

End RegistrationLaws.

(** ** The further properties at concrete masks *)


Lemma set_then_is_set_witness :
  0 < sizeof (underlying_type simple_bitmask_flag_bits)
  /\ is_set_enum simple_bitmask_flag_bits
       (set simple_bitmask_flag_bits (from_mask 0x08) 0x05) 0x05 = true.
Proof.
  split; [ reflexivity | ].
  apply (set_then_is_set simple_bitmask_flag_bits eq_refl (from_mask 0x08) 0x05).
Defined.

Lemma set_monotone_idempotent_commutes_witness :
  wf simple_bitmask_flag_bits (from_mask 0x08)
  /\ set simple_bitmask_flag_bits
       (set simple_bitmask_flag_bits (from_mask 0x08) 0x01) 0x04
     = set simple_bitmask_flag_bits
         (set simple_bitmask_flag_bits (from_mask 0x08) 0x04) 0x01.
Proof.
  split; [ reflexivity | ].
  apply (set_monotone_idempotent_commutes simple_bitmask_flag_bits eq_refl
           (from_mask 0x08) 0x01 0x04).
  reflexivity.
Defined.

Lemma set_then_remove_clears_witness :
  wf some_bitmask_flag_bits (from_mask (-3))
  /\ in_range int32_t 0x06 = true
  /\ Z.land
       (mask_ (remove some_bitmask_flag_bits
                 (set some_bitmask_flag_bits (from_mask (-3)) 0x06) 0x06))
       0x06 = 0.
Proof.
  split; [ reflexivity | ]. split; [ reflexivity | ].
  apply (set_then_remove_clears some_bitmask_flag_bits eq_refl
           (from_mask (-3)) 0x06);
    reflexivity.
Defined.

Lemma remove_clears_iff_is_set_witness :
  wf simple_bitmask_flag_bits (from_mask 0x0c)
  /\ in_range uint16_t 0x05 = true
  /\ (remove simple_bitmask_flag_bits (from_mask 0x0c) 0x05
      = set simple_bitmask_flag_bits (from_mask 0x0c) 0x05
      <-> Z.land 0x0c 0x05 = 0).
Proof.
  split; [ reflexivity | ]. split; [ reflexivity | ].
  apply (remove_clears_iff_is_set simple_bitmask_flag_bits eq_refl
           (from_mask 0x0c) 0x05);
    reflexivity.
Defined.

Lemma is_set_of_zero_and_default_witness :
  in_range uint16_t 0x04 = true
  /\ is_set_enum simple_bitmask_flag_bits (from_mask 0x09) 0 = true
  /\ (is_set_enum simple_bitmask_flag_bits default_bitmask 0x04 = true
      <-> 0x04 = 0).
Proof.
  split; [ reflexivity | ].
  pose proof (is_set_of_zero_and_default simple_bitmask_flag_bits eq_refl
                (from_mask 0x09) 0x04 eq_refl) as H.
  split; [ apply H | apply H ].
Defined.

Lemma is_set_is_inclusion_witness :
  wf simple_bitmask_flag_bits (from_mask 0x0d)
  /\ wf simple_bitmask_flag_bits (from_mask 0x05)
  /\ (is_set_mask (from_mask 0x0d) (from_mask 0x05) = true
      <-> operator_and simple_bitmask_flag_bits (from_mask 0x0d) (from_mask 0x05)
          = from_mask 0x05).
Proof.
  split; [ reflexivity | ]. split; [ reflexivity | ].
  apply (is_set_is_inclusion simple_bitmask_flag_bits eq_refl
           (from_mask 0x0d) (from_mask 0x05) (from_mask 0));
    reflexivity.
Defined.

Lemma negation_complements_within_all_flags_witness :
  wf simple_bitmask_flag_bits (from_mask 0x0c)
  /\ is_set_mask (all_flags simple_bitmask_flag_bits test_traits)
       (from_mask 0x0c) = true
  /\ operator_or simple_bitmask_flag_bits (from_mask 0x0c)
       (operator_not simple_bitmask_flag_bits test_traits (from_mask 0x0c))
     = all_flags simple_bitmask_flag_bits test_traits.
Proof.
  split; [ reflexivity | ]. split; [ reflexivity | ].
  apply (negation_complements_within_all_flags simple_bitmask_flag_bits
           test_traits eq_refl (from_mask 0x0c));
    reflexivity.
Defined.

Lemma de_morgan_within_all_flags_witness :
  wf simple_bitmask_flag_bits (from_mask 0x05)
  /\ wf simple_bitmask_flag_bits (from_mask 0x0c)
  /\ is_set_mask (all_flags simple_bitmask_flag_bits test_traits)
       (from_mask 0x05) = true
  /\ is_set_mask (all_flags simple_bitmask_flag_bits test_traits)
       (from_mask 0x0c) = true
  /\ operator_not simple_bitmask_flag_bits test_traits
       (operator_or simple_bitmask_flag_bits (from_mask 0x05) (from_mask 0x0c))
     = operator_and simple_bitmask_flag_bits
         (operator_not simple_bitmask_flag_bits test_traits (from_mask 0x05))
         (operator_not simple_bitmask_flag_bits test_traits (from_mask 0x0c)).
Proof.
  repeat (split; [ reflexivity | ]).
  apply (de_morgan_within_all_flags simple_bitmask_flag_bits test_traits
           eq_refl (from_mask 0x05) (from_mask 0x0c));
    reflexivity.
Defined.

Lemma or_and_lattice_witness :
  wf some_bitmask_flag_bits (from_mask (-6))
  /\ operator_and some_bitmask_flag_bits (from_mask (-6))
       (operator_or some_bitmask_flag_bits (from_mask (-6)) (from_mask 0x03))
     = from_mask (-6).
Proof.
  split; [ reflexivity | ].
  apply (or_and_lattice some_bitmask_flag_bits eq_refl
           (from_mask (-6)) (from_mask 0x03) (from_mask 0)).
  reflexivity.
Defined.

Lemma xor_group_witness :
  wf some_bitmask_flag_bits (from_mask (-6))
  /\ operator_xor some_bitmask_flag_bits
       (operator_xor some_bitmask_flag_bits (from_mask (-6)) (from_mask 0x03))
       (from_mask 0x03)
     = from_mask (-6).
Proof.
  split; [ reflexivity | ].
  apply (xor_group some_bitmask_flag_bits eq_refl
           (from_mask (-6)) (from_mask 0x03) (from_mask 0)).
  reflexivity.
Defined.

Lemma updates_commute_witness :
  in_range uint16_t 0x01 = true
  /\ in_range uint16_t 0x04 = true
  /\ Z.land 0x01 0x04 = 0
  /\ set simple_bitmask_flag_bits
       (remove simple_bitmask_flag_bits (from_mask 0x09) 0x01) 0x04
     = remove simple_bitmask_flag_bits
         (set simple_bitmask_flag_bits (from_mask 0x09) 0x04) 0x01.
Proof.
  repeat (split; [ reflexivity | ]).
  apply (updates_commute simple_bitmask_flag_bits eq_refl (from_mask 0x09)
           0x01 0x04);
    reflexivity.
Defined.

Lemma conversions_round_trip_witness :
  wf some_bitmask_flag_bits (from_mask (-6))
  /\ in_range int32_t 0x80 = true
  /\ to_enum some_bitmask_flag_bits (from_enum some_bitmask_flag_bits 0x80) = 0x80
  /\ from_enum some_bitmask_flag_bits (to_enum some_bitmask_flag_bits (from_mask (-6)))
     = from_mask (-6).
Proof.
  split; [ reflexivity | ]. split; [ reflexivity | ].
  pose proof (conversions_round_trip some_bitmask_flag_bits eq_refl
                (from_mask (-6)) 0x80 eq_refl eq_refl) as H.
  split; apply H.
Defined.

Lemma is_set_below_unsigned_witness :
  is_signed (underlying_type simple_bitmask_flag_bits) = false
  /\ wf simple_bitmask_flag_bits (from_mask 0x0d)
  /\ is_set_mask (from_mask 0x0d) (from_mask 0x05) = true
  /\ le_mask (from_mask 0x05) (from_mask 0x0d) = true.
Proof.
  repeat (split; [ reflexivity | ]).
  apply (is_set_below_unsigned simple_bitmask_flag_bits
           (from_mask 0x0d) (from_mask 0x05));
    reflexivity.
Defined.

Lemma registration_ignores_order_and_repeats_witness :
  Forall (fun v => in_range uint16_t v = true) [0x01; 0x04; 0x08]
  /\ Forall (fun v => in_range uint16_t v = true) [0x08; 0x01; 0x04; 0x01]
  /\ DEADDEV_ENABLE_BITMASK int32_t 201402 simple_bitmask_flag_bits
       [0x01; 0x04; 0x08]
     = DEADDEV_ENABLE_BITMASK int32_t 202002 simple_bitmask_flag_bits
         [0x08; 0x01; 0x04; 0x01].
Proof.
  assert (H1 : Forall (fun v => in_range uint16_t v = true) [0x01; 0x04; 0x08])
    by (repeat constructor).
  assert (H2 : Forall (fun v => in_range uint16_t v = true)
                 [0x08; 0x01; 0x04; 0x01])
    by (repeat constructor).
  split; [ exact H1 | ]. split; [ exact H2 | ].
  apply (registration_ignores_order_and_repeats int32_t
           simple_bitmask_flag_bits eq_refl 201402 202002
           0x01 0x08 [0x04; 0x08] [0x01; 0x04; 0x01] H1 H2).
  intros v. cbn [In]. tauto.
Defined.

Lemma listed_flags_are_set_witness :
  Forall (fun v => in_range uint16_t v = true) [0x01; 0x04; 0x08]
  /\ DEADDEV_ENABLE_BITMASK int32_t 201402 simple_bitmask_flag_bits
       [0x01; 0x04; 0x08] = Some test_traits
  /\ is_set_enum simple_bitmask_flag_bits
       (all_flags simple_bitmask_flag_bits test_traits) 0x04 = true.
Proof.
  assert (H1 : Forall (fun v => in_range uint16_t v = true) [0x01; 0x04; 0x08])
    by (repeat constructor).
  split; [ exact H1 | ]. split; [ reflexivity | ].
  apply (listed_flags_are_set int32_t simple_bitmask_flag_bits eq_refl 201402
           0x01 [0x04; 0x08] test_traits 0x04 0x08 H1 eq_refl);
    cbn [In]; tauto.
Defined.


Lemma negation_after_registration_without_flags_witness :
  is_signed int32_t = true
  /\ bits uint16_t < bits int32_t - 1
  /\ DEADDEV_ENABLE_BITMASK int32_t 202002 simple_bitmask_flag_bits []
     = Some {| enable := true; traits_all_flags := 0xffff |}
  /\ wf simple_bitmask_flag_bits (from_mask 0x0c)
  /\ operator_not simple_bitmask_flag_bits
       {| enable := true; traits_all_flags := 0xffff |} (from_mask 0x0c)
     = from_mask 0xfff3.
Proof.
  split; [ reflexivity | ]. split; [ reflexivity | ].
  split; [ reflexivity | ]. split; [ reflexivity | ].
  apply (negation_after_registration_without_flags int32_t
           simple_bitmask_flag_bits eq_refl 202002
           {| enable := true; traits_all_flags := 0xffff |} (from_mask 0x0c));
    reflexivity.
Defined.

Lemma enable_with_flags_witness :
  Forall (fun v => in_range int32_t v = true) [0x01; 0x02; 0x80]
  /\ DEADDEV_ENABLE_BITMASK int32_t 201402 some_bitmask_flag_bits
       [0x01; 0x02; 0x80]
     = Some {| enable := true; traits_all_flags := union_of [0x01; 0x02; 0x80] |}.
Proof.
  assert (H1 : Forall (fun v => in_range int32_t v = true) [0x01; 0x02; 0x80])
    by (repeat constructor).
  split; [ exact H1 | ].
  apply (enable_with_flags int32_t 201402 some_bitmask_flag_bits eq_refl
           0x01 [0x02; 0x80] H1).
Defined.

Lemma enable_without_flags_narrow_witness :
  is_signed int32_t = true
  /\ bits int16_t < bits int32_t - 1
  /\ DEADDEV_ENABLE_BITMASK int32_t 202002
       {| underlying_type := int16_t; is_scoped_enum_v := true |} []
     = Some {| enable := true; traits_all_flags := static_cast int16_t (-1) |}.
Proof.
  split; [ reflexivity | ]. split; [ reflexivity | ].
  apply (enable_without_flags_narrow int32_t 202002
           {| underlying_type := int16_t; is_scoped_enum_v := true |} eq_refl);
    reflexivity.
Defined.

Lemma enable_without_flags_wide_witness :
  bits int32_t <= bits (underlying_type some_bitmask_flag_bits)
  /\ DEADDEV_ENABLE_BITMASK int32_t 202002 some_bitmask_flag_bits [] = None.
Proof.
  assert (H : bits int32_t <= bits (underlying_type some_bitmask_flag_bits))
    by (unfold bits; cbn; lia).
  split; [ exact H | ].
  apply (enable_without_flags_wide int32_t 202002 some_bitmask_flag_bits H).
Defined.
